(** * rt_wifi_scanner: the producer/consumer core of [main.c]

    A shallow embedding of the periodic WiFi scanner of [main.c]: the timer
    arithmetic of the read task, the circular SSID queue shared by the two
    tasks, the scan loop of the producer, the history kept by the consumer,
    and the start-up sequence of [main].

    Conventions of the embedding.
    - Fixed-width C integers are values of [Z]; every operation that can
      leave the range of its C type is followed by the reduction the C
      conversion performs ([to_u32], [to_u64], [to_long]).  The data model is
      LP64: [long], [unsigned long] and [time_t] are 64 bits wide.
    - [f32_t] is a binary32 IEEE 754 number, a [spec_float] operated on with
      precision 24 and maximal exponent 128.
    - A C string is the [string] of its characters before the terminating
      NUL, so that [strcpy] is a copy of the value; arrays are lists read
      with [!!!] and written with [<[ _ := _ ]>].
    - The static variables of the translation unit are the fields of the
      record [Machine]; every C function is a function on that record. *)

From Stdlib Require Import ZArith Lia Bool Ascii String SpecFloat.
From stdpp Require Import base list strings relations.
From Equations Require Import Equations.

#[local] Open Scope Z_scope.

(** ** Machine integers *)

Module CInt.

Definition to_unsigned (bits z : Z) : Z := z mod 2 ^ bits.

Definition to_signed (bits z : Z) : Z :=
  let u := to_unsigned bits z in
  if u <? 2 ^ (bits - 1) then u else u - 2 ^ bits.

(** Modelled from the spec: [u8_t], [u32_t] and [u64_t] are declared in
    [data_types.h], which is not among the sources; they are taken as their
    names say, unsigned integers of 8, 32 and 64 bits. [to_ulong] is the
    conversion to [unsigned long]. *)
Definition to_u8 : Z -> Z := to_unsigned 8.
Definition to_u32 : Z -> Z := to_unsigned 32.
Definition to_u64 : Z -> Z := to_unsigned 64.
Definition to_ulong : Z -> Z := to_unsigned 64.

(** [long] and [time_t]. *)
Definition to_long : Z -> Z := to_signed 64.

Definition ULONG_MAX : Z := 2 ^ 64 - 1.
Definition LONG_MAX : Z := 2 ^ 63 - 1.
Definition LONG_MIN : Z := - 2 ^ 63.

End CInt.
Import CInt.

(** ** Macro definitions *)

Definition NSEC_PER_SEC : Z := 1000000000.
Definition SSID_SIZE : Z := 64.
Definition BUFFER_SIZE : Z := 32.

(** ** [struct timespec] and the timer of the read task *)

Record timespec := { tv_sec : Z; tv_nsec : Z }.

(** The body of the normalisation loop of [updateInterval]:
    [tv_nsec -= NSEC_PER_SEC; tv_sec++]. The subtraction is carried out in
    [unsigned long] and converted back to [long]. *)
Definition normalize_step (t : timespec) : timespec :=
  {| tv_sec := to_long (tv_sec t + 1);
     tv_nsec := to_long (to_ulong (to_ulong (tv_nsec t) - NSEC_PER_SEC)) |}.

(** [while (task_timer->tv_nsec >= NSEC_PER_SEC) { ... }]; the comparison of
    a [long] with an [unsigned long] is done in [unsigned long]. *)
Equations? normalize_loop (t : timespec) : timespec
  by wf (Z.to_nat (to_ulong (tv_nsec t) / NSEC_PER_SEC)) lt :=
  normalize_loop t with Z_le_gt_dec NSEC_PER_SEC (to_ulong (tv_nsec t)) => {
    | left _ => normalize_loop (normalize_step t);
    | right _ => t }.
Proof.
  cbn [normalize_step tv_nsec].
  unfold to_long, to_signed, to_ulong, to_unsigned, NSEC_PER_SEC in *.
  set (u := tv_nsec t mod 2 ^ 64) in *.
  pose proof (Z.mod_pos_bound (tv_nsec t) (2 ^ 64) ltac:(reflexivity)) as Hu.
  fold u in Hu.
  rewrite !(Z.mod_small (u - 1000000000)) by lia.
  assert (E : (if u - 1000000000 <? 2 ^ (64 - 1)
               then u - 1000000000 else u - 1000000000 - 2 ^ 64) mod 2 ^ 64
              = u - 1000000000).
  { destruct (u - 1000000000 <? 2 ^ (64 - 1)); [apply Z.mod_small; lia|].
    symmetry. apply (Z.mod_unique _ _ (-1)); lia. }
  rewrite E.
  replace u with ((u - 1000000000) + 1 * 1000000000) at 2 by lia.
  rewrite Z.div_add by lia.
  assert (0 <= (u - 1000000000) / 1000000000) by (apply Z.div_pos; lia).
  lia.
Qed.

(** [updateInterval]: [task_timer->tv_nsec += interval] in [u64_t], stored
    back into the [long] field, then the normalisation loop. *)
Definition updateInterval (task_timer : timespec) (interval : Z) : timespec :=
  normalize_loop
    {| tv_sec := tv_sec task_timer;
       tv_nsec := to_long (to_u64 (to_u64 (tv_nsec task_timer) + interval)) |}.

(** The time a timer denotes, in nanoseconds. *)
Definition total_nsec (t : timespec) : Z := tv_sec t * NSEC_PER_SEC + tv_nsec t.

(** ** [f32_t]: binary32 floating point *)

Module F32.

Definition prec : Z := 24.
Definition emax : Z := 128.

(** Modelled from the spec: [f32_t] is declared in [data_types.h], which is
    not among the sources. Timestamps are "monotonic seconds as floating
    point"; the type is taken as its name says, the 32-bit [float], and
    expressions of that type are evaluated in that format. *)
Definition f32_t : Type := spec_float.

Definition zero : f32_t := S754_zero false.

(** Conversion of an integer to [f32_t], rounding to nearest even. *)
Definition of_Z (z : Z) : f32_t := binary_normalize prec emax z 0 false.

Definition add : f32_t -> f32_t -> f32_t := SFadd prec emax.
Definition sub : f32_t -> f32_t -> f32_t := SFsub prec emax.
Definition div : f32_t -> f32_t -> f32_t := SFdiv prec emax.

(** The C operators [==], [!=] and [<=]. *)
Definition eqb : f32_t -> f32_t -> bool := SFeqb.
Definition neb (x y : f32_t) : bool := negb (SFeqb x y).
Definition leb : f32_t -> f32_t -> bool := SFleb.

(** A number, as opposed to an infinity or a NaN. *)
Definition is_finite (x : f32_t) : bool :=
  match x with
  | S754_zero _ | S754_finite _ _ _ => true
  | S754_infinity _ | S754_nan => false
  end.

(** A value a binary32 register can hold: the mantissa and the exponent
    of a finite number are in canonical form. *)
Definition valid (x : f32_t) : bool := valid_binary prec emax x.

End F32.
Import F32.

#[local] Instance f32_inhabited : Inhabited f32_t := populate F32.zero.

(** [getCurrentTimestamp], from the value [clock_gettime] stored in
    [current_t]: [tv_sec + (tv_nsec / (f32_t)1000000000u)], every operand
    converted to [f32_t]. *)
Definition timestamp_of (current_t : timespec) : f32_t :=
  F32.add (F32.of_Z (tv_sec current_t))
          (F32.div (F32.of_Z (tv_nsec current_t)) (F32.of_Z 1000000000)).

(** ** C strings *)

Definition NUL : ascii := Ascii.zero.
Definition newline : ascii := Ascii.ascii_of_nat 10.

(** The C string stored in a character buffer: the characters before the
    first NUL. *)
Fixpoint c_str (buf : string) : string :=
  match buf with
  | EmptyString => EmptyString
  | String c rest => if Ascii.eqb c NUL then EmptyString else String c (c_str rest)
  end.

(** [strncmp(a, b, n) == 0] on C strings. *)
Fixpoint strncmp_eq (a b : string) (n : nat) : bool :=
  match n with
  | O => true
  | S n' =>
      match a, b with
      | EmptyString, EmptyString => true
      | String x a', String y b' => Ascii.eqb x y && strncmp_eq a' b' n'
      | _, _ => false
      end
  end.

(** [strcmp(a, b) == 0] on C strings. *)
Definition strcmp_eq (a b : string) : bool := String.eqb a b.

(** ** The scanner pipe *)

(** The characters one [fgets] call takes from the stream: at most [room]
    of them, stopping after a newline. Returns them with the rest of the
    stream. *)
Fixpoint fgets_take (room : nat) (stream : string) : string * string :=
  match room, stream with
  | O, _ => (EmptyString, stream)
  | S _, EmptyString => (EmptyString, EmptyString)
  | S room', String c rest =>
      if Ascii.eqb c newline then (String c EmptyString, rest)
      else let '(line, rest') := fgets_take room' rest in (String c line, rest')
  end.

(** [fgets(buf, size, file)]: [None] is the NULL returned at end of file;
    otherwise the C string left in [buf] and the rest of the stream. *)
Definition fgets (size : nat) (stream : string) : option (string * string) :=
  match stream with
  | EmptyString => None
  | String _ _ =>
      let '(line, rest) := fgets_take (size - 1) stream in Some (c_str line, rest)
  end.

(** A value together with the equation that names it. *)
Definition inspect {A : Type} (a : A) : {b : A | a = b} := exist _ a eq_refl.

(** The buffers the loop [while (fgets(ssid, sizeof(ssid) - 1, file) != NULL)]
    of [readSSID] sees, in order, until end of file. *)
Equations? file_lines (stream : string) : list string
  by wf (String.length stream) lt :=
  file_lines stream with inspect (fgets (Z.to_nat (SSID_SIZE - 1)) stream) => {
    | exist _ (Some (line, rest)) Hget => line :: file_lines rest;
    | exist _ None _ => [] }.
Proof.
  assert (Htake : forall room s l r, fgets_take room s = (l, r) ->
            (String.length l + String.length r = String.length s)%nat /\
            (room <> O -> s <> EmptyString -> l <> EmptyString)).
  { induction room as [|room IH]; intros [|c s] l r; cbn; intros H.
    1-3: injection H as <- <-; cbn; split; [lia | congruence].
    destruct (Ascii.eqb c newline).
    - injection H as <- <-. cbn. split; [lia | congruence].
    - destruct (fgets_take room s) as [l' r'] eqn:E. injection H as <- <-.
      destruct (IH _ _ _ E) as [Hl _]. cbn. split; [lia | congruence]. }
  unfold fgets in Hget. destruct stream as [|c s]; [discriminate|].
  destruct (fgets_take _ (String c s)) as [l r] eqn:E.
  injection Hget as _ <-.
  destruct (Htake _ _ _ _ E) as [Hlen Hne].
  destruct l as [|x l]; [exfalso; apply Hne; [discriminate | congruence | reflexivity]|].
  cbn in Hlen |- *. lia.
Qed.

(** ** [strtoul] of the C library, called with base 0 *)

Module Strtoul.

Definition code (c : ascii) : Z := Z.of_nat (nat_of_ascii c).

Definition isspace (c : ascii) : bool :=
  (code c =? 32) || ((9 <=? code c) && (code c <=? 13)).

Fixpoint skip_spaces (s : string) : string :=
  match s with
  | String c rest => if isspace c then skip_spaces rest else s
  | EmptyString => EmptyString
  end.

(** The value of a character as a digit, letters counting from ten. *)
Definition digit_of (c : ascii) : option Z :=
  let n := code c in
  if (48 <=? n) && (n <=? 57) then Some (n - 48)
  else if (97 <=? n) && (n <=? 122) then Some (n - 87)
  else if (65 <=? n) && (n <=? 90) then Some (n - 55)
  else None.

(** The longest prefix of [s] made of digits of the base. *)
Fixpoint digits (base : Z) (s : string) : list Z :=
  match s with
  | String c rest =>
      match digit_of c with
      | Some d => if d <? base then d :: digits base rest else []
      | None => []
      end
  | EmptyString => []
  end.

Definition is_x (c : ascii) : bool := (code c =? 120) || (code c =? 88).

(** The subject sequence: sign, base and digits, after the leading white
    space. With base 0 a prefix [0x] followed by a hexadecimal digit
    selects base 16, another leading [0] base 8, anything else base 10. *)
Definition subject (nptr : string) : bool * Z * list Z :=
  let s := skip_spaces nptr in
  let '(neg, s) :=
    match s with
    | String c rest =>
        if code c =? 45 then (true, rest)
        else if code c =? 43 then (false, rest)
        else (false, s)
    | EmptyString => (false, s)
    end in
  match s with
  | String z (String x rest) =>
      if (code z =? 48) && is_x x && negb (match digits 16 rest with [] => true | _ => false end)
      then (neg, 16, digits 16 rest)
      else if code z =? 48 then (neg, 8, digits 8 s)
      else (neg, 10, digits 10 s)
  | String z EmptyString =>
      if code z =? 48 then (neg, 8, digits 8 s) else (neg, 10, digits 10 s)
  | EmptyString => (neg, 10, [])
  end.

Definition value (base : Z) (ds : list Z) : Z :=
  fold_left (fun acc d => acc * base + d) ds 0.

(** [strtoul(nptr, NULL, 0)]: 0 when no digit can be converted,
    [ULONG_MAX] when the value is out of range, the value negated in
    [unsigned long] after a minus sign. *)
Definition strtoul (nptr : string) : Z :=
  let '(neg, base, ds) := subject nptr in
  let v := value base ds in
  if ULONG_MAX <? v then ULONG_MAX
  else if neg then to_ulong (- v) else v.

(** No conversion can be performed on [nptr]. *)
Definition unparseable (nptr : string) : Prop := snd (subject nptr) = [].

End Strtoul.

(** ** The SSID queue *)

Record SSIDQueue := {
  ssid_buffer : list string;
  timestamp_buffer : list f32_t;
  head : Z;
  tail : Z;
  full : bool;
  empty : bool
}.

(** [queueAdd], on the queue it updates. *)
Definition queueAdd (ssid : string) (timestamp : f32_t) (q : SSIDQueue) : SSIDQueue :=
  let ssid_buffer' := <[Z.to_nat (tail q) := ssid]> (ssid_buffer q) in
  let timestamp_buffer' := <[Z.to_nat (tail q) := timestamp]> (timestamp_buffer q) in
  let tail1 := to_u32 (tail q + 1) in
  let tail2 := if tail1 =? BUFFER_SIZE then 0 else tail1 in
  let full' := if tail2 =? head q then true else full q in
  {| ssid_buffer := ssid_buffer';
     timestamp_buffer := timestamp_buffer';
     head := head q;
     tail := tail2;
     full := full';
     empty := false |}.

(** [queuePop]: the SSID and the timestamp stored through the two pointer
    arguments, and the queue after the call. *)
Definition queuePop (q : SSIDQueue) : string * f32_t * SSIDQueue :=
  let ssid := ssid_buffer q !!! Z.to_nat (head q) in
  let timestamp := timestamp_buffer q !!! Z.to_nat (head q) in
  let head1 := to_u32 (head q + 1) in
  let head2 := if head1 =? BUFFER_SIZE then 0 else head1 in
  let empty' := if head2 =? tail q then true else empty q in
  (ssid, timestamp,
   {| ssid_buffer := ssid_buffer q;
      timestamp_buffer := timestamp_buffer q;
      head := head2;
      tail := tail q;
      full := false;
      empty := empty' |}).

(** ** The static variables *)

Record Machine := {
  read_cycle_time : Z;
  read_task_timer : timespec;
  ssid_num : Z;
  ssids : list string;
  num_timestamps : list Z;
  timestamps : list (list f32_t);
  latencies : list (list f32_t);
  ssid_queue : SSIDQueue;
  (** Number of readings of CLOCK_MONOTONIC taken so far. *)
  clock_reads : nat
}.

Definition set_read_cycle_time (v : Z) (m : Machine) : Machine :=
  {| read_cycle_time := v; read_task_timer := read_task_timer m;
     ssid_num := ssid_num m; ssids := ssids m; num_timestamps := num_timestamps m;
     timestamps := timestamps m; latencies := latencies m;
     ssid_queue := ssid_queue m; clock_reads := clock_reads m |}.

Definition set_read_task_timer (v : timespec) (m : Machine) : Machine :=
  {| read_cycle_time := read_cycle_time m; read_task_timer := v;
     ssid_num := ssid_num m; ssids := ssids m; num_timestamps := num_timestamps m;
     timestamps := timestamps m; latencies := latencies m;
     ssid_queue := ssid_queue m; clock_reads := clock_reads m |}.

Definition set_ssid_queue (v : SSIDQueue) (m : Machine) : Machine :=
  {| read_cycle_time := read_cycle_time m; read_task_timer := read_task_timer m;
     ssid_num := ssid_num m; ssids := ssids m; num_timestamps := num_timestamps m;
     timestamps := timestamps m; latencies := latencies m;
     ssid_queue := v; clock_reads := clock_reads m |}.

Definition set_clock_reads (v : nat) (m : Machine) : Machine :=
  {| read_cycle_time := read_cycle_time m; read_task_timer := read_task_timer m;
     ssid_num := ssid_num m; ssids := ssids m; num_timestamps := num_timestamps m;
     timestamps := timestamps m; latencies := latencies m;
     ssid_queue := ssid_queue m; clock_reads := v |}.

(** The four arrays of the history and their common length. *)
Definition set_history (n : Z) (ss : list string) (ns : list Z)
    (ts ls : list (list f32_t)) (m : Machine) : Machine :=
  {| read_cycle_time := read_cycle_time m; read_task_timer := read_task_timer m;
     ssid_num := n; ssids := ss; num_timestamps := ns;
     timestamps := ts; latencies := ls;
     ssid_queue := ssid_queue m; clock_reads := clock_reads m |}.

(** Static storage is zero-initialised. *)
Definition initial_queue : SSIDQueue :=
  {| ssid_buffer := replicate (Z.to_nat BUFFER_SIZE) EmptyString;
     timestamp_buffer := replicate (Z.to_nat BUFFER_SIZE) F32.zero;
     head := 0; tail := 0; full := false; empty := false |}.

Definition initial_machine : Machine :=
  {| read_cycle_time := 0;
     read_task_timer := {| tv_sec := 0; tv_nsec := 0 |};
     ssid_num := 0; ssids := []; num_timestamps := [];
     timestamps := []; latencies := [];
     ssid_queue := initial_queue; clock_reads := 0 |}.

(** [realloc(p, sizeof( *p) * n)] followed by no write: the first [n]
    elements are kept, new elements hold an unspecified value. *)
Definition realloc {A : Type} `{Inhabited A} (p : list A) (n : Z) : list A :=
  resize (Z.to_nat n) inhabitant p.

(** ** Start-up *)

(** What the process does that is visible from outside, in order. *)
Inductive event :=
| EvMlockall
| EvPrefaultStack
| EvSchedSetaffinity
| EvPerror (msg : string)
| EvExit (status : Z)
| EvQueueInit
| EvPthreadCreate (task : string)
| EvPthreadJoin (task : string)
| EvExitTask.

(** How a function that may call [exit] ends. *)
Inductive outcome (A : Type) :=
| Returned (a : A)
| Exited (status : Z).
Arguments Returned {A} a.
Arguments Exited {A} status.

(** The arguments of [exit] in [main.c]. *)
Definition EXIT_MLOCKALL : Z := -2.
Definition EXIT_AFFINITY : Z := -3.
Definition EXIT_ARGUMENTS : Z := -4.

(** The exit status the parent process observes: [status & 0377]. *)
Definition wait_status (status : Z) : Z := Z.land status 255.

(** Real-time setup: memory locking, stack prefaulting, CPU pinning. *)
Definition is_rt_setup (e : event) : bool :=
  match e with
  | EvMlockall | EvPrefaultStack | EvSchedSetaffinity => true
  | _ => false
  end.

(** The initialisation of the queue in [INIT_TASK]: [empty = 1], [full = 0],
    [head = 0], [tail = 0]. *)
Definition init_queue (q : SSIDQueue) : SSIDQueue :=
  {| ssid_buffer := ssid_buffer q; timestamp_buffer := timestamp_buffer q;
     head := 0; tail := 0; full := false; empty := true |}.

(** [INIT_TASK]. The product [strtoul(...) * NSEC_PER_SEC] is computed in
    [unsigned long] and stored in the [u64_t] [read_cycle_time]. *)
Definition INIT_TASK (argc : Z) (argv : list string) (m : Machine)
    : list event * outcome Machine :=
  if negb (argc =? 2) then
    ([EvPerror "Wrong number of arguments"; EvExit EXIT_ARGUMENTS], Exited EXIT_ARGUMENTS)
  else
    let cycle := to_u64 (to_ulong (Strtoul.strtoul (argv !!! 1%nat) * NSEC_PER_SEC)) in
    ([EvQueueInit],
     Returned (set_ssid_queue (init_queue (ssid_queue m)) (set_read_cycle_time cycle m))).

(** What [main] receives from its environment: the results of the two
    system calls that can fail, and the command line. *)
Record Env := {
  mlockall_result : Z;
  sched_setaffinity_result : Z;
  argc : Z;
  argv : list string
}.

(** [main], up to the creation of the two tasks; [Returned m] is the state
    in which the tasks start and [main] waits in [pthread_join]. *)
Definition main (env : Env) : list event * outcome Machine :=
  if mlockall_result env =? -1 then
    ([EvMlockall; EvPerror "mlockall failed"; EvExit EXIT_MLOCKALL], Exited EXIT_MLOCKALL)
  else if sched_setaffinity_result env =? -1 then
    ([EvMlockall; EvPrefaultStack; EvSchedSetaffinity;
      EvPerror "Could not set CPU Affinity"; EvExit EXIT_AFFINITY], Exited EXIT_AFFINITY)
  else
    let setup := [EvMlockall; EvPrefaultStack; EvSchedSetaffinity] in
    match INIT_TASK (argc env) (argv env) initial_machine with
    | (evs, Exited status) => (setup ++ evs, Exited status)
    | (evs, Returned m) =>
        (setup ++ evs ++ [EvPthreadCreate "READ_TASK"; EvPthreadCreate "STORE_TASK"],
         Returned m)
    end.

(** [main] to its end. After the creation of the tasks [main] calls
    [pthread_join] on the read task and then on the store task, then
    [EXIT_TASK] and [exit(0)]. [join_1] and [join_2] tell whether the two
    calls of [pthread_join] return; a call that does not return leaves
    [main] waiting in it, which [Returned m] stands for. *)
Definition main_to_exit (env : Env) (join_1 join_2 : bool) : list event * outcome Machine :=
  match main env with
  | (evs, Exited status) => (evs, Exited status)
  | (evs, Returned m) =>
      if join_1 then
        if join_2 then
          (evs ++ [EvPthreadJoin "READ_TASK"; EvPthreadJoin "STORE_TASK";
                   EvExitTask; EvExit 0], Exited 0)
        else (evs ++ [EvPthreadJoin "READ_TASK"], Returned m)
      else (evs, Returned m)
  end.

(** ** The functions of [main.c] *)

Section Program.

(** CLOCK_MONOTONIC: the value the [n]-th call of [clock_gettime]
    returns. *)
Variable clock_monotonic : nat -> timespec.

Definition clock_gettime (m : Machine) : timespec * Machine :=
  (clock_monotonic (clock_reads m), set_clock_reads (S (clock_reads m)) m).

Definition getCurrentTimestamp (m : Machine) : f32_t * Machine :=
  let '(current_t, m) := clock_gettime m in (timestamp_of current_t, m).

(** The body of the [while] loop of [readSSID], for the buffer [ssid]
    that [fgets] has filled. *)
Definition readSSID_line (m : Machine) (ssid : string) : Machine :=
  if negb (full (ssid_queue m)) && negb (strncmp_eq ssid "x00" 3) then
    let '(now, m) := getCurrentTimestamp m in
    set_ssid_queue (queueAdd ssid now (ssid_queue m)) m
  else m.

(** [readSSID]; [popen_result] is [None] when [popen] returns NULL and
    the output of the scanner script otherwise. *)
Definition readSSID (popen_result : option string) (m : Machine) : Machine :=
  match popen_result with
  | Some stream => fold_left readSSID_line (file_lines stream) m
  | None => m
  end.

(** The branch of [storeSSIDs] taken inside the [for] loop: one more
    timestamp and latency for the entry [i]. *)
Definition storeSSIDs_append (i : Z) (timestamp : f32_t) (m : Machine) : Machine :=
  let k := Z.to_nat i in
  let n := to_u32 (num_timestamps m !!! k + 1) in
  let ts := <[Z.to_nat (to_u32 (n - 1)) := timestamp]> (realloc (timestamps m !!! k) n) in
  let '(now, m) := getCurrentTimestamp m in
  let ls := <[Z.to_nat (to_u32 (n - 1)) := F32.sub now timestamp]> (realloc (latencies m !!! k) n) in
  set_history (ssid_num m) (ssids m)
    (<[k := n]> (num_timestamps m))
    (<[k := ts]> (timestamps m))
    (<[k := ls]> (latencies m)) m.

(** [for (i = ...; i < ssid_num; i++)] of [storeSSIDs], from index [i] on;
    [fuel] bounds the number of iterations left. Returns [ssid_found]. *)
Fixpoint storeSSIDs_for (fuel : nat) (i : Z) (ssid : string) (timestamp : f32_t)
    (m : Machine) : bool * Machine :=
  match fuel with
  | O => (false, m)
  | S fuel' =>
      if i <? ssid_num m then
        let k := Z.to_nat i in
        if strcmp_eq (ssids m !!! k) ssid &&
           F32.neb ((timestamps m !!! k) !!! Z.to_nat (to_u32 (num_timestamps m !!! k - 1)))
                   timestamp
        then (true, storeSSIDs_append i timestamp m)
        else storeSSIDs_for fuel' (to_u64 (i + 1)) ssid timestamp m
      else (false, m)
  end.

(** The branch [if (!ssid_found)] of [storeSSIDs]: a new entry. *)
Definition storeSSIDs_new (ssid : string) (timestamp : f32_t) (m : Machine) : Machine :=
  let n := to_u64 (ssid_num m + 1) in
  let k := Z.to_nat (to_u64 (n - 1)) in
  let ss := <[k := ssid]> (realloc (ssids m) n) in
  let ns := <[k := 1]> (realloc (num_timestamps m) n) in
  let ts := <[k := [timestamp]]> (realloc (timestamps m) n) in
  let '(now, m) := getCurrentTimestamp m in
  let ls := <[k := [F32.sub now timestamp]]> (realloc (latencies m) n) in
  set_history n ss ns ts ls m.

(** The aggregation of one dequeued pair into the history. *)
Definition aggregate (ssid : string) (timestamp : f32_t) (m : Machine) : Machine :=
  let '(ssid_found, m) :=
    storeSSIDs_for (Z.to_nat (ssid_num m)) 0 ssid timestamp m in
  if ssid_found then m else storeSSIDs_new ssid timestamp m.

Definition storeSSIDs (m : Machine) : Machine :=
  let '(ssid, timestamp, q) := queuePop (ssid_queue m) in
  aggregate ssid timestamp (set_ssid_queue q m).

(** ** The two tasks *)

(** [READ_TASK] before its loop: the timer is set from the clock. *)
Definition READ_TASK_start (m : Machine) : Machine :=
  let '(now, m) := clock_gettime m in set_read_task_timer now m.

(** The loop of [READ_TASK] in its two parts: the computation of the
    next shot, and the section run with the mutex held once the queue is
    not full. [None]: the task is suspended in [pthread_cond_wait]. *)
Definition READ_TASK_next_shot (m : Machine) : Machine :=
  set_read_task_timer (updateInterval (read_task_timer m) (read_cycle_time m)) m.

Definition READ_TASK_critical (popen_result : option string) (m : Machine)
    : option Machine :=
  if full (ssid_queue m) then None
  else Some (readSSID popen_result m).

(** The section of the loop of [STORE_TASK] run with the mutex held, once
    the queue is not empty. *)
Definition STORE_TASK_critical (m : Machine) : option Machine :=
  if empty (ssid_queue m) then None
  else Some (storeSSIDs m).

(** The steps of the two tasks; the mutex makes each section atomic. *)
Inductive task_step : Machine -> Machine -> Prop :=
| step_next_shot m :
    task_step m (READ_TASK_next_shot m)
| step_read popen_result m m' :
    READ_TASK_critical popen_result m = Some m' -> task_step m m'
| step_store m m' :
    STORE_TASK_critical m = Some m' -> task_step m m'.

End Program.

(** ** The report *)

(** A call of [fprintf] on the report file: the format and its argument. *)
Inductive fprintf_call :=
| Fprintf (format : string)
| FprintfS (format : string) (s : string)
| FprintfF (format : string) (x : f32_t).

Definition end_of_line : string := String newline EmptyString.

(** The formats of [writeToFile]. *)
Definition FORMAT_TITLE : string := String.append "SSID" end_of_line.
Definition FORMAT_COLUMNS : string := String.append "    timestamp  (latency)" end_of_line.
Definition FORMAT_RULE : string :=
  String.append "=========================" (String.append end_of_line end_of_line).
Definition FORMAT_SSID : string := "%s".
Definition FORMAT_TIMESTAMP : string := "    %.3f".
Definition FORMAT_LATENCY : string := String.append "   (%.6f)" end_of_line.

(** [for (j = ...; j < num_timestamps[i]; j++)] of [writeToFile], from the
    index [j] on; [fuel] bounds the number of iterations left. *)
Fixpoint writeToFile_rows (fuel : nat) (i j : Z) (m : Machine) : list fprintf_call :=
  match fuel with
  | O => []
  | S fuel' =>
      if j <? num_timestamps m !!! Z.to_nat i then
        FprintfF FORMAT_TIMESTAMP ((timestamps m !!! Z.to_nat i) !!! Z.to_nat j)
        :: FprintfF FORMAT_LATENCY ((latencies m !!! Z.to_nat i) !!! Z.to_nat j)
        :: writeToFile_rows fuel' i (to_u64 (j + 1)) m
      else []
  end.

(** [for (i = ...; i < ssid_num; i++)] of [writeToFile], from the index [i]
    on. *)
Fixpoint writeToFile_entries (fuel : nat) (i : Z) (m : Machine) : list fprintf_call :=
  match fuel with
  | O => []
  | S fuel' =>
      if i <? ssid_num m then
        FprintfS FORMAT_SSID (ssids m !!! Z.to_nat i)
        :: writeToFile_rows (Z.to_nat (num_timestamps m !!! Z.to_nat i)) i 0 m
        ++ Fprintf end_of_line
        :: writeToFile_entries fuel' (to_u64 (i + 1)) m
      else []
  end.

(** [writeToFile]: the calls of [fprintf] on the file opened for writing,
    which replace what the file held; [None] when [fopen] returns NULL and
    nothing is written. *)
Definition writeToFile (fopen_ok : bool) (m : Machine) : option (list fprintf_call) :=
  if fopen_ok then
    Some (Fprintf FORMAT_TITLE :: Fprintf FORMAT_COLUMNS :: Fprintf FORMAT_RULE
          :: writeToFile_entries (Z.to_nat (ssid_num m)) 0 m)
  else None.

(** ** Runs of the two tasks *)

(** One iteration of the loop of [STORE_TASK]: the aggregation with the
    mutex held, then the report. [None]: the task is suspended in
    [pthread_cond_wait]. *)
Definition STORE_TASK_iteration (clock_monotonic : nat -> timespec) (fopen_ok : bool)
    (m : Machine) : option (Machine * option (list fprintf_call)) :=
  match STORE_TASK_critical clock_monotonic m with
  | Some m' => Some (m', writeToFile fopen_ok m')
  | None => None
  end.

(** What a task does next: the read task computes its next shot or scans,
    the store task aggregates. *)
Inductive task_action :=
| NextShot
| Scan (popen_result : option string)
| Store.

(** The actions in order, each run as the task runs it; [None] when an
    action is attempted while its task is suspended. *)
Fixpoint run_tasks (clock_monotonic : nat -> timespec) (actions : list task_action)
    (m : Machine) : option Machine :=
  match actions with
  | [] => Some m
  | action :: actions' =>
      let next :=
        match action with
        | NextShot => Some (READ_TASK_next_shot m)
        | Scan popen_result => READ_TASK_critical clock_monotonic popen_result m
        | Store => STORE_TASK_critical clock_monotonic m
        end in
      match next with
      | Some m' => run_tasks clock_monotonic actions' m'
      | None => None
      end
  end.

(** * Specification

    The notions the properties are stated with: what a queue holds, when
    the representation of the queue and of the history is well formed, what
    a scan enqueues and what an aggregation does. *)

(** ** The queue *)

(** Number of occupied slots. *)
Definition queue_count (q : SSIDQueue) : Z :=
  if full q then BUFFER_SIZE else (tail q - head q) mod BUFFER_SIZE.

(** The pair held [k] slots after the head. *)
Definition queue_slot (q : SSIDQueue) (k : nat) : string * f32_t :=
  let i := Z.to_nat ((head q + Z.of_nat k) mod BUFFER_SIZE) in
  (ssid_buffer q !!! i, timestamp_buffer q !!! i).

(** The pairs waiting in the queue, oldest first. *)
Definition queue_contents (q : SSIDQueue) : list (string * f32_t) :=
  map (queue_slot q) (seq 0 (Z.to_nat (queue_count q))).

(** The representation invariant of the circular buffer. *)
Record queue_wf (q : SSIDQueue) : Prop := {
  wf_head : 0 <= head q < BUFFER_SIZE;
  wf_tail : 0 <= tail q < BUFFER_SIZE;
  wf_ssid_buffer : length (ssid_buffer q) = Z.to_nat BUFFER_SIZE;
  wf_timestamp_buffer : length (timestamp_buffer q) = Z.to_nat BUFFER_SIZE;
  wf_full : full q = true -> head q = tail q;
  wf_empty : empty q = true <-> (head q = tail q /\ full q = false)
}.

(** A use of the queue by one of the tasks. *)
Inductive queue_op :=
| Enqueue (ssid : string) (timestamp : f32_t)
| Dequeue.

(** The pairs a sequence of operations enqueues, in order. *)
Fixpoint enqueued (ops : list queue_op) : list (string * f32_t) :=
  match ops with
  | [] => []
  | Enqueue ssid timestamp :: ops' => (ssid, timestamp) :: enqueued ops'
  | Dequeue :: ops' => enqueued ops'
  end.

(** The number of dequeues in a sequence of operations. *)
Fixpoint dequeues (ops : list queue_op) : nat :=
  match ops with
  | [] => O
  | Enqueue _ _ :: ops' => dequeues ops'
  | Dequeue :: ops' => S (dequeues ops')
  end.

(** Runs the operations as the tasks do: [queueAdd] only when the queue is
    not full, [queuePop] only when it is not empty. Returns the pairs the
    dequeues returned, in order, and the final queue; [None] when an
    operation is attempted on a queue that does not allow it. *)
Fixpoint run_queue (ops : list queue_op) (q : SSIDQueue)
    : option (list (string * f32_t) * SSIDQueue) :=
  match ops with
  | [] => Some ([], q)
  | Enqueue ssid timestamp :: ops' =>
      if full q then None else run_queue ops' (queueAdd ssid timestamp q)
  | Dequeue :: ops' =>
      if empty q then None
      else
        let '(ssid, timestamp, q') := queuePop q in
        match run_queue ops' q' with
        | Some (out, q'') => Some ((ssid, timestamp) :: out, q'')
        | None => None
        end
  end.

(** ** The scan of the producer *)

(** The sentinel test of [readSSID]: [strncmp(ssid, "x00", 3) == 0]. *)
Definition is_sentinel (ssid : string) : bool := strncmp_eq ssid "x00" 3.

(** The lines of a scan that are not sentinels. *)
Definition valid_lines (lines : list string) : list string :=
  List.filter (fun ssid => negb (is_sentinel ssid)) lines.

(** Free slots of the queue. *)
Definition queue_free (q : SSIDQueue) : nat := Z.to_nat (BUFFER_SIZE - queue_count q).

(** The pairs enqueued for the lines [ssids], the first of them stamped
    with the reading number [reads] of the clock. *)
Definition stamped (clock_monotonic : nat -> timespec) (reads : nat) (ssids : list string)
    : list (string * f32_t) :=
  imap (fun j ssid => (ssid, timestamp_of (clock_monotonic (reads + j)%nat))) ssids.

(** The calls of [queueAdd] of one scan, for the buffers [lines] from the
    state [m] on: one for each buffer that passes the test of the loop of
    [readSSID], with the arguments of the call. *)
Fixpoint readSSID_queue_ops (clock_monotonic : nat -> timespec) (lines : list string)
    (m : Machine) : list queue_op :=
  match lines with
  | [] => []
  | ssid :: lines' =>
      let ops :=
        readSSID_queue_ops clock_monotonic lines' (readSSID_line clock_monotonic m ssid) in
      if negb (full (ssid_queue m)) && negb (strncmp_eq ssid "x00" 3) then
        Enqueue ssid (timestamp_of (clock_monotonic (clock_reads m))) :: ops
      else ops
  end.

(** The uses of the queue by the two tasks along a run: the calls of
    [queueAdd] of each scan, the call of [queuePop] of each aggregation. *)
Fixpoint task_queue_ops (clock_monotonic : nat -> timespec) (actions : list task_action)
    (m : Machine) : list queue_op :=
  match actions with
  | [] => []
  | NextShot :: actions' =>
      task_queue_ops clock_monotonic actions' (READ_TASK_next_shot m)
  | Scan popen_result :: actions' =>
      match READ_TASK_critical clock_monotonic popen_result m with
      | Some m' =>
          match popen_result with
          | Some stream => readSSID_queue_ops clock_monotonic (file_lines stream) m
          | None => []
          end ++ task_queue_ops clock_monotonic actions' m'
      | None => []
      end
  | Store :: actions' =>
      match STORE_TASK_critical clock_monotonic m with
      | Some m' => Dequeue :: task_queue_ops clock_monotonic actions' m'
      | None => []
      end
  end.

(** ** The history *)

(** The representation invariant of the four arrays of the history: they
    have [ssid_num] elements, and the entry [k] has [num_timestamps[k]]
    timestamps and as many latencies, at least one. *)
Record history_wf (m : Machine) : Prop := {
  hwf_ssid_num : 0 <= ssid_num m;
  hwf_ssids : length (ssids m) = Z.to_nat (ssid_num m);
  hwf_num_timestamps : length (num_timestamps m) = Z.to_nat (ssid_num m);
  hwf_timestamps : length (timestamps m) = Z.to_nat (ssid_num m);
  hwf_latencies : length (latencies m) = Z.to_nat (ssid_num m);
  hwf_entry : forall k : nat, (k < Z.to_nat (ssid_num m))%nat ->
    1 <= num_timestamps m !!! k /\
    length (timestamps m !!! k) = Z.to_nat (num_timestamps m !!! k) /\
    length (latencies m !!! k) = Z.to_nat (num_timestamps m !!! k)
}.

(** The counters can be incremented without leaving [u64_t] and [u32_t]. *)
Definition history_room (m : Machine) : Prop :=
  ssid_num m < 2 ^ 64 - 1 /\
  forall k : nat, (k < Z.to_nat (ssid_num m))%nat -> num_timestamps m !!! k < 2 ^ 32 - 1.

(** The test of the [for] loop of [storeSSIDs] on the entry [k]: same SSID
    and a last timestamp that differs from the new one. *)
Definition entry_matches (m : Machine) (ssid : string) (timestamp : f32_t) (k : nat) : bool :=
  strcmp_eq (ssids m !!! k) ssid &&
  F32.neb ((timestamps m !!! k) !!! Z.to_nat (to_u32 (num_timestamps m !!! k - 1))) timestamp.

(** What an aggregation does to the history: either the entry [k], the
    first that passes the test of the loop, gets one more timestamp and one
    more latency, or no entry passes the test and a new entry is added
    with one timestamp and one latency. *)
Inductive aggregated (ssid : string) (timestamp latency : f32_t) (m m' : Machine) : Prop :=
| aggregated_append (k : nat) :
    (k < Z.to_nat (ssid_num m))%nat ->
    entry_matches m ssid timestamp k = true ->
    (forall j : nat, (j < k)%nat -> entry_matches m ssid timestamp j = false) ->
    ssid_num m' = ssid_num m ->
    ssids m' = ssids m ->
    num_timestamps m' = <[k := num_timestamps m !!! k + 1]> (num_timestamps m) ->
    timestamps m' = <[k := timestamps m !!! k ++ [timestamp]]> (timestamps m) ->
    latencies m' = <[k := latencies m !!! k ++ [latency]]> (latencies m) ->
    aggregated ssid timestamp latency m m'
| aggregated_new :
    (forall j : nat, (j < Z.to_nat (ssid_num m))%nat ->
                     entry_matches m ssid timestamp j = false) ->
    ssid_num m' = ssid_num m + 1 ->
    ssids m' = ssids m ++ [ssid] ->
    num_timestamps m' = num_timestamps m ++ [1] ->
    timestamps m' = timestamps m ++ [[timestamp]] ->
    latencies m' = latencies m ++ [[latency]] ->
    aggregated ssid timestamp latency m m'.

(** The clock reading an aggregation started in [m] subtracts from. *)
Definition aggregation_time (clock_monotonic : nat -> timespec) (m : Machine) : f32_t :=
  timestamp_of (clock_monotonic (clock_reads m)).

(** ** Floating point *)

(** Neither a NaN nor below zero. *)
Definition SFnonneg (x : spec_float) : Prop := SFleb (S754_zero false) x = true.

(** ** The report and the runs *)

(** The values of the counters fit their C types. *)
Definition history_bounded (m : Machine) : Prop :=
  ssid_num m < 2 ^ 64 /\
  forall k : nat, (k < Z.to_nat (ssid_num m))%nat -> num_timestamps m !!! k < 2 ^ 32.

(** The number of samples the history records. *)
Definition recorded_samples (m : Machine) : nat := length (concat (timestamps m)).

(** The two [fprintf] calls of a row of the report. *)
Definition report_row (row : f32_t * f32_t) : list fprintf_call :=
  [FprintfF FORMAT_TIMESTAMP row.1; FprintfF FORMAT_LATENCY row.2].

(** The section of the report for one SSID and its rows. *)
Definition report_entry (ssid : string) (rows : list (f32_t * f32_t)) : list fprintf_call :=
  FprintfS FORMAT_SSID ssid :: concat (map report_row rows) ++ [Fprintf end_of_line].

(** The number of next shots among the actions of a run. *)
Fixpoint shots (actions : list task_action) : Z :=
  match actions with
  | [] => 0
  | NextShot :: actions' => 1 + shots actions'
  | _ :: actions' => shots actions'
  end.

(** No NUL character in the output of the scanner. *)
Fixpoint nul_free (stream : string) : bool :=
  match stream with
  | EmptyString => true
  | String c rest => negb (Ascii.eqb c NUL) && nul_free rest
  end.

(** No newline among the characters. *)
Fixpoint newline_free (s : string) : bool :=
  match s with
  | EmptyString => true
  | String c rest => negb (Ascii.eqb c newline) && newline_free rest
  end.

(** The lines put back one after the other. *)
Definition join_lines (lines : list string) : string :=
  fold_right String.append EmptyString lines.

(** The output of the scanner up to a point where a line starts: nothing,
    or characters that end with a newline. *)
Definition whole_lines (stream : string) : Prop :=
  stream = EmptyString \/ exists s, stream = String.append s (String newline EmptyString).

(** A line the buffer of [readSSID] takes in one piece: no newline and no
    NUL in it, and at most 61 characters before its newline. *)
Definition short_line (ssid : string) : Prop :=
  newline_free ssid = true /\ nul_free ssid = true /\ (String.length ssid <= 61)%nat.

(** ** A worked run

    The process is started as [scanner 2]. The clock reads 1000 s and a
    few microseconds, which [f32_t] cannot tell from 1000 s. One scan
    returns the SSID NetA, a sentinel line, and NetA again. *)

Definition example_clock (n : nat) : timespec :=
  {| tv_sec := 1000; tv_nsec := 1000 * Z.of_nat n |}.

Definition line (ssid : string) : string :=
  String.append ssid (String newline EmptyString).

Definition scan_output : string :=
  String.append (line "NetA") (String.append (line "x00") (line "NetA")).

(** A scan that returns 40 access points. *)
Definition burst_output : string :=
  fold_right String.append EmptyString (replicate 40 (line "AP")).

(** A name of 62 characters. *)
Definition long_name : string :=
  fold_right String.append EmptyString (replicate 62 "A"%string).

(** A line of 63 characters that starts with the sentinel. *)
Definition long_sentinel : string :=
  String.append "x00" (fold_right String.append EmptyString (replicate 60 "A"%string)).

(** A scan that returns 40 access points with names of 63 characters. *)
Definition long_burst : list string :=
  replicate 40 (String.append long_name "A").

(** The state in which the tasks start. *)
Definition started : Machine :=
  match INIT_TASK 2 ["scanner"; "2"]%string initial_machine with
  | (_, Returned m) => m
  | (_, Exited _) => initial_machine
  end.

(** After the scan; after the first aggregation; after the second. *)
Definition scanned : Machine := readSSID example_clock (Some scan_output) started.
Definition stored_once : Machine := storeSSIDs example_clock scanned.
Definition stored_twice : Machine := storeSSIDs example_clock stored_once.

(** * Properties *)

(** ** Machine integers *)

Section MachineIntegers.

Lemma to_ulong_small z : 0 <= z < 2 ^ 64 -> to_ulong z = z.
Proof. intros H. unfold to_ulong, to_unsigned. now apply Z.mod_small. Qed.

Lemma to_ulong_range z : 0 <= to_ulong z < 2 ^ 64.
Proof. unfold to_ulong, to_unsigned. apply Z.mod_pos_bound. lia. Qed.

Lemma to_ulong_to_long z : to_ulong (to_long z) = to_ulong z.
Proof.
  unfold to_long, to_signed, to_ulong, to_unsigned.
  destruct (z mod 2 ^ 64 <? 2 ^ (64 - 1)).
  - apply Z.mod_mod. lia.
  - symmetry. apply (Z.mod_unique _ _ (-1)).
    + left. apply Z.mod_pos_bound. lia.
    + lia.
Qed.

Lemma to_long_small z : LONG_MIN <= z <= LONG_MAX -> to_long z = z.
Proof.
  unfold LONG_MIN, LONG_MAX, to_long, to_signed, to_unsigned. intros H.
  change (64 - 1) with 63.
  pose proof (Z.div_mod z (2 ^ 64)) as Hd.
  pose proof (Z.mod_pos_bound z (2 ^ 64)) as Hb.
  destruct (z mod 2 ^ 64 <? 2 ^ 63) eqn:E;
    [apply Z.ltb_lt in E | apply Z.ltb_ge in E]; lia.
Qed.

End MachineIntegers.

(** ** The timer *)

Section Timer.

Lemma to_long_range z : LONG_MIN <= to_long z <= LONG_MAX.
Proof.
  unfold LONG_MIN, LONG_MAX, to_long, to_signed, to_unsigned.
  change (64 - 1) with 63.
  pose proof (Z.mod_pos_bound z (2 ^ 64) ltac:(reflexivity)) as Hb.
  destruct (z mod 2 ^ 64 <? 2 ^ 63) eqn:E;
    [apply Z.ltb_lt in E | apply Z.ltb_ge in E]; lia.
Qed.

(** A [long] that reads as a small [unsigned long] is that number. *)
Lemma to_ulong_long_small n :
  LONG_MIN <= n <= LONG_MAX -> to_ulong n < 2 ^ 63 -> to_ulong n = n.
Proof.
  unfold LONG_MIN, LONG_MAX, to_ulong, to_unsigned. intros Hn Hu.
  pose proof (Z.div_mod n (2 ^ 64) ltac:(discriminate)) as Hd.
  pose proof (Z.mod_pos_bound n (2 ^ 64) ltac:(reflexivity)) as Hb.
  lia.
Qed.

Lemma normalize_loop_eq t :
  normalize_loop t =
    if Z_le_gt_dec NSEC_PER_SEC (to_ulong (tv_nsec t))
    then normalize_loop (normalize_step t) else t.
Proof.
  rewrite normalize_loop_equation_1. unfold normalize_loop_unfold_clause_1.
  destruct (Z_le_gt_dec NSEC_PER_SEC (to_ulong (tv_nsec t))); reflexivity.
Qed.

(** The loop, run on a timer whose nanoseconds read [u] as an
    [unsigned long], leaves [u mod NSEC_PER_SEC] and carries
    [u / NSEC_PER_SEC] into the seconds. *)
Lemma normalize_loop_spec (k : nat) : forall t,
  LONG_MIN <= tv_nsec t <= LONG_MAX ->
  to_ulong (tv_nsec t) / NSEC_PER_SEC = Z.of_nat k ->
  LONG_MIN <= tv_sec t -> tv_sec t + Z.of_nat k <= LONG_MAX ->
  normalize_loop t =
    {| tv_sec := tv_sec t + to_ulong (tv_nsec t) / NSEC_PER_SEC;
       tv_nsec := to_ulong (tv_nsec t) mod NSEC_PER_SEC |}.
Proof.
  induction k as [|k IH]; intros [s n]; cbn [tv_sec tv_nsec];
    intros Hn Hk Hlo Hhi; rewrite normalize_loop_eq; cbn [tv_nsec];
    pose proof (to_ulong_range n) as Hu;
    pose proof (Z.div_mod (to_ulong n) NSEC_PER_SEC ltac:(discriminate)) as Hdm;
    pose proof (Z.mod_pos_bound (to_ulong n) NSEC_PER_SEC ltac:(reflexivity)) as Hmb;
    unfold NSEC_PER_SEC in *;
    destruct (Z_le_gt_dec 1000000000 (to_ulong n)) as [Hge | Hlt]; try lia.
  - rewrite Hk, Z.add_0_r. f_equal.
    rewrite Z.mod_small by lia. symmetry. apply to_ulong_long_small; lia.
  - unfold normalize_step, NSEC_PER_SEC; cbn [tv_sec tv_nsec].
    set (u := to_ulong n) in *.
    rewrite (to_ulong_small (u - _)) by lia.
    unfold LONG_MIN, LONG_MAX in *.
    rewrite (to_long_small (s + 1)) by (unfold LONG_MIN, LONG_MAX; lia).
    assert (Hq : (u - 1000000000) / 1000000000 = Z.of_nat k).
    { replace (u - 1000000000) with (u + (-1) * 1000000000) by lia.
      rewrite Z.div_add by lia. lia. }
    assert (Hr : (u - 1000000000) mod 1000000000 = u mod 1000000000).
    { replace (u - 1000000000) with (u + (-1) * 1000000000) by lia.
      apply Z.mod_add. lia. }
    assert (Hu' : to_ulong (to_long (u - 1000000000)) = u - 1000000000).
    { rewrite to_ulong_to_long. apply to_ulong_small. lia. }
    rewrite IH; cbn [tv_sec tv_nsec]; rewrite ?Hu', ?Hq, ?Hr; try lia.
    + f_equal. lia.
    + apply to_long_range.
Qed.

(** [updateInterval] in closed form, when the sum of the nanoseconds and
    the interval fits [u64_t] and the seconds stay in [time_t]. *)
Lemma updateInterval_spec t interval :
  0 <= tv_nsec t < NSEC_PER_SEC -> 0 <= interval ->
  tv_nsec t + interval < 2 ^ 64 ->
  LONG_MIN <= tv_sec t ->
  tv_sec t + (tv_nsec t + interval) / NSEC_PER_SEC <= LONG_MAX ->
  updateInterval t interval =
    {| tv_sec := tv_sec t + (tv_nsec t + interval) / NSEC_PER_SEC;
       tv_nsec := (tv_nsec t + interval) mod NSEC_PER_SEC |}.
Proof.
  intros Hn Hi Hsum Hlo Hhi. unfold updateInterval.
  change to_u64 with to_ulong. unfold NSEC_PER_SEC in Hn.
  rewrite (to_ulong_small (tv_nsec t)) by lia.
  rewrite (to_ulong_small (_ + _)) by lia.
  assert (Hu : to_ulong (to_long (tv_nsec t + interval)) = tv_nsec t + interval).
  { rewrite to_ulong_to_long. apply to_ulong_small. lia. }
  assert (Hq : 0 <= (tv_nsec t + interval) / NSEC_PER_SEC).
  { apply Z.div_pos; [lia | reflexivity]. }
  rewrite (normalize_loop_spec (Z.to_nat ((tv_nsec t + interval) / NSEC_PER_SEC)));
    cbn [tv_sec tv_nsec]; rewrite ?Hu; try lia.
  - reflexivity.
  - apply to_long_range.
Qed.

(** C7, as amended: for a timer whose nanosecond field is in [0, 10^9)
    and an interval whose sum with that field fits the 64-bit unsigned
    arithmetic of the update (the seconds staying in the range of
    [time_t]), [updateInterval] advances the time the timer denotes by
    exactly the interval and leaves the nanosecond field in [0, 10^9). *)
Theorem updateInterval_advances t interval :
  0 <= tv_nsec t < NSEC_PER_SEC -> 0 <= interval ->
  tv_nsec t + interval < 2 ^ 64 ->
  LONG_MIN <= tv_sec t ->
  tv_sec t + (tv_nsec t + interval) / NSEC_PER_SEC <= LONG_MAX ->
  total_nsec (updateInterval t interval) = total_nsec t + interval /\
  0 <= tv_nsec (updateInterval t interval) < NSEC_PER_SEC.
Proof.
  intros Hn Hi Hsum Hlo Hhi.
  rewrite updateInterval_spec by assumption.
  unfold total_nsec; cbn [tv_sec tv_nsec].
  pose proof (Z.div_mod (tv_nsec t + interval) NSEC_PER_SEC ltac:(discriminate)).
  pose proof (Z.mod_pos_bound (tv_nsec t + interval) NSEC_PER_SEC ltac:(reflexivity)).
  split; lia.
Qed.

Lemma updateInterval_advances_witness :
  let t := {| tv_sec := 100; tv_nsec := 999999999 |} in
  total_nsec (updateInterval t 2000000000) = total_nsec t + 2000000000 /\
  0 <= tv_nsec (updateInterval t 2000000000) < NSEC_PER_SEC.
Proof.
  apply updateInterval_advances; cbn [tv_sec tv_nsec];
    unfold NSEC_PER_SEC, LONG_MIN, LONG_MAX; try lia.
  apply Z.leb_le. reflexivity.
Defined.

(** C7 as stated fails: a period of 18446744073 seconds is a [u64_t]
    number of nanoseconds, and added to 800000000 ns it exceeds 2^64;
    the sum wraps and the timer moves by less than a tenth of a second. *)
Lemma updateInterval_wraps :
  let t := {| tv_sec := 5; tv_nsec := 800000000 |} in
  let interval := 18446744073 * NSEC_PER_SEC in
  0 <= tv_nsec t < NSEC_PER_SEC /\
  0 <= interval < 2 ^ 64 /\
  updateInterval t interval = {| tv_sec := 5; tv_nsec := 90448384 |} /\
  total_nsec (updateInterval t interval) <> total_nsec t + interval.
Proof.
  assert (E : updateInterval {| tv_sec := 5; tv_nsec := 800000000 |}
                (18446744073 * NSEC_PER_SEC)
              = {| tv_sec := 5; tv_nsec := 90448384 |}).
  { unfold updateInterval. rewrite normalize_loop_eq. reflexivity. }
  cbv zeta. rewrite E. unfold total_nsec, NSEC_PER_SEC; cbn [tv_sec tv_nsec].
  repeat split; lia.
Qed.

End Timer.

(** ** The queue is a FIFO *)

Section Queue.

#[local] Ltac zmod := unfold BUFFER_SIZE, to_u32, to_unsigned in *;
  Z.div_mod_to_equations; lia.

Lemma queue_count_range q : queue_wf q -> 0 <= queue_count q <= BUFFER_SIZE.
Proof.
  intros []. unfold queue_count. destruct (full q); zmod.
Qed.

Lemma queue_count_empty q :
  queue_wf q -> (empty q = true <-> queue_count q = 0).
Proof.
  intros [Hh Ht _ _ Hf He]. unfold queue_count. rewrite He.
  destruct (full q).
  - split; [intros [_ ?]; discriminate | unfold BUFFER_SIZE; lia].
  - split; [intros [-> _]; zmod | intros; split; [zmod | reflexivity]].
Qed.

Lemma queue_count_full q :
  queue_wf q -> (full q = true <-> queue_count q = BUFFER_SIZE).
Proof.
  intros [Hh Ht _ _ Hf He]. unfold queue_count.
  destruct (full q); split; try reflexivity; try discriminate. zmod.
Qed.

Lemma queue_contents_length q :
  length (queue_contents q) = Z.to_nat (queue_count q).
Proof. unfold queue_contents. now rewrite length_map, length_seq. Qed.

Lemma queueAdd_wf ssid timestamp q :
  queue_wf q -> full q = false -> queue_wf (queueAdd ssid timestamp q).
Proof.
  intros [Hh Ht Hs Hts Hf He] Hnf. unfold queueAdd.
  assert (Ht1 : to_u32 (tail q + 1) = tail q + 1) by zmod.
  rewrite Ht1.
  split; cbn [head tail full empty ssid_buffer timestamp_buffer];
    rewrite ?length_insert; try assumption.
  - destruct (tail q + 1 =? BUFFER_SIZE) eqn:E; [|apply Z.eqb_neq in E]; zmod.
  - destruct (_ =? head q) eqn:E; [apply Z.eqb_eq in E; lia | congruence].
  - split; [discriminate|]. intros [E1 E2].
    rewrite E1, Z.eqb_refl in E2. discriminate.
Qed.

Lemma queueAdd_count ssid timestamp q :
  queue_wf q -> full q = false ->
  queue_count (queueAdd ssid timestamp q) = queue_count q + 1.
Proof.
  intros [Hh Ht Hs Hts Hf He] Hnf. unfold queueAdd, queue_count.
  cbn [head tail full]. rewrite Hnf.
  assert (Ht1 : to_u32 (tail q + 1) = tail q + 1) by zmod.
  rewrite Ht1.
  destruct (tail q + 1 =? BUFFER_SIZE) eqn:E1;
    [apply Z.eqb_eq in E1 | apply Z.eqb_neq in E1];
    destruct (_ =? head q) eqn:E2;
    [apply Z.eqb_eq in E2 | apply Z.eqb_neq in E2
    |apply Z.eqb_eq in E2 | apply Z.eqb_neq in E2]; zmod.
Qed.

Lemma queueAdd_slot_old ssid timestamp q (k : nat) :
  queue_wf q -> full q = false -> Z.of_nat k < queue_count q ->
  queue_slot (queueAdd ssid timestamp q) k = queue_slot q k.
Proof.
  intros [Hh Ht Hs Hts Hf He] Hnf Hk. unfold queue_count in Hk.
  rewrite Hnf in Hk. unfold queueAdd, queue_slot.
  cbn [head ssid_buffer timestamp_buffer].
  assert (Hne : Z.to_nat (tail q) <> Z.to_nat ((head q + Z.of_nat k) mod BUFFER_SIZE))
    by zmod.
  now rewrite !list_lookup_total_insert_ne by exact Hne.
Qed.

Lemma queueAdd_slot_new ssid timestamp q :
  queue_wf q -> full q = false ->
  queue_slot (queueAdd ssid timestamp q) (Z.to_nat (queue_count q)) = (ssid, timestamp).
Proof.
  intros [Hh Ht Hs Hts Hf He] Hnf. unfold queue_count.
  rewrite Hnf. unfold queueAdd, queue_slot.
  cbn [head ssid_buffer timestamp_buffer].
  assert (Heq : Z.to_nat ((head q + Z.of_nat (Z.to_nat ((tail q - head q) mod BUFFER_SIZE)))
                          mod BUFFER_SIZE) = Z.to_nat (tail q)) by zmod.
  rewrite Heq.
  rewrite !list_lookup_total_insert_eq; [reflexivity | |]; zmod.
Qed.

(** An enqueue on a queue that is not full puts the pair behind the
    pairs already waiting, which stay as they are. *)
Lemma queueAdd_contents ssid timestamp q :
  queue_wf q -> full q = false ->
  queue_contents (queueAdd ssid timestamp q) = queue_contents q ++ [(ssid, timestamp)].
Proof.
  intros Hwf Hnf. unfold queue_contents.
  rewrite queueAdd_count by assumption.
  pose proof (queue_count_range q Hwf) as Hr.
  replace (Z.to_nat (queue_count q + 1)) with (S (Z.to_nat (queue_count q))) by lia.
  rewrite seq_S, map_app. cbn [map Nat.add]. f_equal.
  - apply map_ext_in. intros k Hk. apply in_seq in Hk.
    apply queueAdd_slot_old; [assumption..|lia].
  - f_equal. now apply queueAdd_slot_new.
Qed.

Lemma queuePop_wf q :
  queue_wf q -> empty q = false -> queue_wf (queuePop q).2.
Proof.
  intros [Hh Ht Hs Hts Hf He] Hne. unfold queuePop. cbn [snd].
  assert (Hh1 : to_u32 (head q + 1) = head q + 1) by zmod.
  rewrite Hh1.
  split; cbn [head tail full empty ssid_buffer timestamp_buffer]; try assumption.
  - destruct (head q + 1 =? BUFFER_SIZE) eqn:E; [|apply Z.eqb_neq in E]; zmod.
  - discriminate.
  - destruct (_ =? tail q) eqn:E;
      [apply Z.eqb_eq in E | apply Z.eqb_neq in E].
    + split; [intros _; split; [exact E | reflexivity] | reflexivity].
    + rewrite Hne. split; [discriminate | intros [? _]; contradiction].
Qed.

Lemma queuePop_count q :
  queue_wf q -> empty q = false ->
  queue_count (queuePop q).2 = queue_count q - 1.
Proof.
  intros Hwf Hne.
  pose proof (queue_count_empty q Hwf) as Hce.
  pose proof (queue_count_range q Hwf) as Hcr.
  destruct Hwf as [Hh Ht Hs Hts Hf He].
  unfold queuePop, queue_count in *. cbn [snd head tail full].
  assert (Hh1 : to_u32 (head q + 1) = head q + 1) by zmod.
  rewrite Hh1.
  destruct (full q) eqn:Efull.
  - specialize (Hf eq_refl).
    destruct (head q + 1 =? BUFFER_SIZE) eqn:E1;
      [apply Z.eqb_eq in E1 | apply Z.eqb_neq in E1]; zmod.
  - assert (Hpos : (tail q - head q) mod BUFFER_SIZE <> 0).
    { intros E. apply Hce in E. congruence. }
    destruct (head q + 1 =? BUFFER_SIZE) eqn:E1;
      [apply Z.eqb_eq in E1 | apply Z.eqb_neq in E1]; zmod.
Qed.

Lemma queuePop_slot q (k : nat) :
  queue_wf q -> queue_slot (queuePop q).2 k = queue_slot q (S k).
Proof.
  intros [Hh Ht Hs Hts Hf He]. unfold queuePop, queue_slot.
  cbn [snd head ssid_buffer timestamp_buffer].
  assert (Hh1 : to_u32 (head q + 1) = head q + 1) by zmod.
  rewrite Hh1.
  assert (Heq : ((if head q + 1 =? BUFFER_SIZE then 0 else head q + 1) + Z.of_nat k)
                  mod BUFFER_SIZE
                = (head q + Z.of_nat (S k)) mod BUFFER_SIZE).
  { destruct (head q + 1 =? BUFFER_SIZE) eqn:E1;
      [apply Z.eqb_eq in E1 | apply Z.eqb_neq in E1]; zmod. }
  now rewrite Heq.
Qed.

(** A dequeue from a queue that is not empty returns the oldest pair and
    leaves the others, in their order. *)
Lemma queuePop_contents q :
  queue_wf q -> empty q = false ->
  queue_contents q = (queuePop q).1 :: queue_contents (queuePop q).2.
Proof.
  intros Hwf Hne. unfold queue_contents.
  rewrite queuePop_count by assumption.
  pose proof (queue_count_range q Hwf) as Hr.
  pose proof (queue_count_empty q Hwf) as Hce.
  assert (Hpos : queue_count q <> 0) by (intros E; apply Hce in E; congruence).
  replace (Z.to_nat (queue_count q)) with (S (Z.to_nat (queue_count q - 1))) by lia.
  cbn [seq map]. f_equal.
  - unfold queue_slot, queuePop. cbn [fst].
    destruct Hwf as [Hh _ _ _ _ _].
    replace ((head q + Z.of_nat 0) mod BUFFER_SIZE) with (head q) by zmod.
    reflexivity.
  - rewrite <- seq_shift, map_map. apply map_ext.
    intros k. symmetry. now apply queuePop_slot.
Qed.

Lemma init_queue_wf q :
  length (ssid_buffer q) = Z.to_nat BUFFER_SIZE ->
  length (timestamp_buffer q) = Z.to_nat BUFFER_SIZE ->
  queue_wf (init_queue q) /\ queue_contents (init_queue q) = [].
Proof.
  intros Hs Ht. split; [|reflexivity].
  split; cbn [init_queue head tail full empty ssid_buffer timestamp_buffer];
    try assumption; try (unfold BUFFER_SIZE; lia); try discriminate.
Qed.

(** What has been enqueued is what has been dequeued followed by what is
    still waiting. *)
Lemma run_queue_contents ops : forall q out q',
  queue_wf q -> run_queue ops q = Some (out, q') ->
  queue_wf q' /\
  queue_contents q ++ enqueued ops = out ++ queue_contents q'.
Proof.
  induction ops as [|[ssid timestamp|] ops IH]; intros q out q' Hwf Hrun;
    cbn [run_queue enqueued] in *.
  - injection Hrun as <- <-. split; [assumption | now rewrite app_nil_r].
  - destruct (full q) eqn:Hnf; [discriminate|].
    destruct (IH _ _ _ (queueAdd_wf ssid timestamp q Hwf Hnf) Hrun) as [Hwf' Heq].
    split; [assumption|].
    rewrite queueAdd_contents in Heq by assumption.
    now rewrite <- app_assoc in Heq.
  - destruct (empty q) eqn:Hne; [discriminate|].
    pose proof (queuePop_wf q Hwf Hne) as Hwf1.
    pose proof (queuePop_contents q Hwf Hne) as Hc.
    destruct (queuePop q) as [[ssid timestamp] q1]. cbn [fst snd] in *.
    destruct (run_queue ops q1) as [[out1 q2]|] eqn:Hrun1; [|discriminate].
    injection Hrun as <- <-.
    destruct (IH _ _ _ Hwf1 Hrun1) as [Hwf' Heq].
    split; [assumption|]. rewrite Hc. cbn [app]. now rewrite Heq.
Qed.

(** C3: from the queue that [INIT_TASK] sets up, for every sequence of
    enqueues done only when the queue is not full and dequeues done only
    when it is not empty, the dequeued pairs followed by the pairs still
    in the queue are the enqueued pairs in the order of their enqueue:
    the dequeues return the first enqueued pairs, as many as there were
    dequeues, none reordered, duplicated or lost. *)
Theorem queue_fifo ops q0 out q' :
  length (ssid_buffer q0) = Z.to_nat BUFFER_SIZE ->
  length (timestamp_buffer q0) = Z.to_nat BUFFER_SIZE ->
  run_queue ops (init_queue q0) = Some (out, q') ->
  enqueued ops = out ++ queue_contents q' /\
  out = take (length out) (enqueued ops) /\
  length out = dequeues ops /\
  queue_wf q'.
Proof.
  intros Hs Ht Hrun.
  destruct (init_queue_wf q0 Hs Ht) as [Hwf Hnil].
  destruct (run_queue_contents ops _ _ _ Hwf Hrun) as [Hwf' Heq].
  rewrite Hnil in Heq. cbn [app] in Heq.
  split; [assumption|]. split; [|split; [|assumption]].
  - rewrite Heq. now rewrite take_app_length.
  - clear Heq Hwf' Hwf Hnil Hs Ht. revert Hrun. generalize (init_queue q0).
    revert out. induction ops as [|[ssid timestamp|] ops IH]; intros out q Hrun;
      cbn [run_queue] in Hrun.
    + now injection Hrun as <- <-.
    + destruct (full q); [discriminate|]. cbn [dequeues]. eauto.
    + destruct (empty q); [discriminate|].
      destruct (queuePop q) as [[s t] q1].
      destruct (run_queue ops q1) as [[out1 q2]|] eqn:Hrun1; [|discriminate].
      injection Hrun as <- <-.
      cbn [length dequeues]. f_equal. eauto.
Qed.

Lemma queue_fifo_witness :
  let ops := [Enqueue "NetA" (F32.of_Z 10); Enqueue "NetB" (F32.of_Z 11); Dequeue;
              Enqueue "NetC" (F32.of_Z 12); Dequeue] in
  exists out q',
    run_queue ops (init_queue initial_queue) = Some (out, q') /\
    (enqueued ops = out ++ queue_contents q' /\
     out = take (length out) (enqueued ops) /\
     length out = dequeues ops /\
     queue_wf q').
Proof.
  intros ops.
  destruct (run_queue ops (init_queue initial_queue)) as [[out q']|] eqn:Hrun.
  - exists out, q'. split; [reflexivity|].
    exact (queue_fifo ops initial_queue out q' eq_refl eq_refl Hrun).
  - vm_compute in Hrun. discriminate Hrun.
Defined.

End Queue.

(** ** What a scan enqueues *)

Section Scan.

Variable clock_monotonic : nat -> timespec.

#[local] Abbreviation readSSID_line := (readSSID_line clock_monotonic).
#[local] Abbreviation readSSID := (readSSID clock_monotonic).

Lemma readSSID_line_skip m ssid :
  is_sentinel ssid = true \/ full (ssid_queue m) = true ->
  readSSID_line m ssid = m.
Proof.
  unfold readSSID_line. fold (is_sentinel ssid).
  intros [-> | ->]; [now rewrite andb_false_r | reflexivity].
Qed.

Lemma readSSID_line_add m ssid :
  is_sentinel ssid = false -> full (ssid_queue m) = false ->
  readSSID_line m ssid =
    set_ssid_queue
      (queueAdd ssid (timestamp_of (clock_monotonic (clock_reads m))) (ssid_queue m))
      (set_clock_reads (S (clock_reads m)) m).
Proof.
  unfold readSSID_line. fold (is_sentinel ssid). intros -> ->. reflexivity.
Qed.

(** The whole loop: the valid lines are enqueued in order, behind what
    the queue held, as long as there is a free slot. *)
Lemma readSSID_lines_contents lines : forall m,
  queue_wf (ssid_queue m) ->
  let m' := fold_left readSSID_line lines m in
  let added := take (queue_free (ssid_queue m)) (valid_lines lines) in
  queue_wf (ssid_queue m') /\
  queue_contents (ssid_queue m') =
    queue_contents (ssid_queue m) ++ stamped clock_monotonic (clock_reads m) added /\
  clock_reads m' = (clock_reads m + length added)%nat.
Proof.
  induction lines as [|ssid lines IH]; intros m Hwf; cbn zeta.
  - cbn. rewrite take_nil. cbn. rewrite app_nil_r. auto with lia.
  - cbn [fold_left valid_lines List.filter]. fold (valid_lines lines).
    pose proof (queue_count_range _ Hwf) as Hr.
    destruct (is_sentinel ssid) eqn:Hs; cbn [negb].
    { rewrite readSSID_line_skip by auto. now apply IH. }
    destruct (full (ssid_queue m)) eqn:Hf.
    { rewrite readSSID_line_skip by auto.
      destruct (IH m Hwf) as (Hwf' & Hc & Hk).
      apply (queue_count_full _ Hwf) in Hf.
      unfold queue_free in *. rewrite Hf in *.
      replace (Z.to_nat (BUFFER_SIZE - BUFFER_SIZE)) with O in * by lia.
      rewrite take_0 in *. auto. }
    rewrite readSSID_line_add by assumption.
    set (now := timestamp_of (clock_monotonic (clock_reads m))).
    set (m1 := set_ssid_queue _ _).
    assert (Hwf1 : queue_wf (ssid_queue m1)) by (now apply queueAdd_wf).
    destruct (IH m1 Hwf1) as (Hwf' & Hc & Hk).
    assert (Hfree : queue_free (ssid_queue m) = S (queue_free (ssid_queue m1))).
    { unfold queue_free, m1. cbn [ssid_queue set_ssid_queue].
      rewrite queueAdd_count by assumption.
      assert (queue_count (ssid_queue m) <> BUFFER_SIZE).
      { intros E. apply (queue_count_full _ Hwf) in E. congruence. }
      lia. }
    rewrite Hfree. cbn [take length].
    split; [assumption|]. split.
    + rewrite Hc. unfold m1 at 1. cbn [ssid_queue set_ssid_queue].
      rewrite queueAdd_contents by assumption.
      rewrite <- app_assoc. f_equal. unfold stamped.
      rewrite imap_cons. cbn [app]. f_equal.
      * unfold now. now rewrite Nat.add_0_r.
      * apply imap_ext. intros j x _. cbn.
        now rewrite Nat.add_succ_r.
    + rewrite Hk. cbn. lia.
Qed.

End Scan.

(** ** What an aggregation does *)

Section History.

Variable clock_monotonic : nat -> timespec.

Lemma realloc_store {A : Type} `{Inhabited A} (p : list A) (x : A) (n : Z) (k : nat) :
  length p = k -> Z.to_nat n = S k ->
  <[k := x]> (realloc p n) = p ++ [x].
Proof.
  intros <- Hn. unfold realloc. rewrite Hn, resize_spec.
  rewrite take_ge by lia.
  replace (S (length p) - length p)%nat with 1%nat by lia. cbn [replicate].
  replace (length p) with (length p + 0)%nat at 1 by lia.
  now rewrite insert_app_r.
Qed.

Lemma storeSSIDs_append_fields (k : nat) timestamp m :
  history_wf m -> history_room m -> (k < Z.to_nat (ssid_num m))%nat ->
  let m' := storeSSIDs_append clock_monotonic (Z.of_nat k) timestamp m in
  ssid_num m' = ssid_num m /\
  ssids m' = ssids m /\
  num_timestamps m' = <[k := num_timestamps m !!! k + 1]> (num_timestamps m) /\
  timestamps m' = <[k := timestamps m !!! k ++ [timestamp]]> (timestamps m) /\
  latencies m' =
    <[k := latencies m !!! k ++ [F32.sub (aggregation_time clock_monotonic m) timestamp]]> (latencies m) /\
  ssid_queue m' = ssid_queue m /\
  clock_reads m' = S (clock_reads m).
Proof.
  intros Hwf [_ Hroom] Hk.
  destruct (hwf_entry m Hwf k Hk) as (Hone & Hts & Hls).
  specialize (Hroom k Hk).
  unfold storeSSIDs_append, getCurrentTimestamp, clock_gettime.
  cbn [ssid_num ssids num_timestamps timestamps latencies ssid_queue clock_reads
       set_clock_reads set_history].
  rewrite Nat2Z.id.
  set (n := num_timestamps m !!! k) in *.
  assert (E1 : to_u32 (n + 1) = n + 1)
    by (unfold to_u32, to_unsigned; apply Z.mod_small; lia).
  rewrite E1.
  assert (E2 : Z.to_nat (to_u32 (n + 1 - 1)) = length (timestamps m !!! k)).
  { replace (n + 1 - 1) with n by lia. rewrite Hts. f_equal.
    unfold to_u32, to_unsigned. apply Z.mod_small. lia. }
  rewrite E2, !realloc_store by lia.
  repeat split; reflexivity.
Qed.

Lemma storeSSIDs_for_spec ssid timestamp m (fuel : nat) : forall i : nat,
  history_wf m -> history_room m ->
  (i + fuel = Z.to_nat (ssid_num m))%nat ->
  match storeSSIDs_for clock_monotonic fuel (Z.of_nat i) ssid timestamp m with
  | (true, m') =>
      exists k : nat, (i <= k < Z.to_nat (ssid_num m))%nat /\
        entry_matches m ssid timestamp k = true /\
        (forall j : nat, (i <= j < k)%nat -> entry_matches m ssid timestamp j = false) /\
        m' = storeSSIDs_append clock_monotonic (Z.of_nat k) timestamp m
  | (false, m') =>
      m' = m /\
      forall j : nat, (i <= j < Z.to_nat (ssid_num m))%nat ->
                      entry_matches m ssid timestamp j = false
  end.
Proof.
  induction fuel as [|fuel IH]; intros i Hwf Hroom Hi; cbn [storeSSIDs_for].
  - split; [reflexivity | intros j Hj; lia].
  - pose proof (hwf_ssid_num m Hwf) as Hn. destruct Hroom as [Hmax Hroom].
    destruct (Z.of_nat i <? ssid_num m) eqn:Hlt;
      [apply Z.ltb_lt in Hlt | apply Z.ltb_ge in Hlt; lia].
    rewrite Nat2Z.id. fold (entry_matches m ssid timestamp i).
    destruct (entry_matches m ssid timestamp i) eqn:Hm.
    + exists i. repeat split; [lia | lia | exact Hm | intros j Hj; lia].
    + assert (E : to_u64 (Z.of_nat i + 1) = Z.of_nat (S i)).
      { unfold to_u64, to_unsigned. rewrite Z.mod_small; lia. }
      rewrite E. specialize (IH (S i) Hwf (conj Hmax Hroom) ltac:(lia)).
      destruct (storeSSIDs_for clock_monotonic fuel (Z.of_nat (S i)) ssid timestamp m) as [[|] m'].
      * destruct IH as (k & Hk & Hmk & Hbefore & ->).
        exists k. repeat split; try lia; try assumption.
        intros j Hj. destruct (decide (j = i)) as [-> | Hne]; [exact Hm|].
        apply Hbefore. lia.
      * destruct IH as [-> Hnone]. split; [reflexivity|].
        intros j Hj. destruct (decide (j = i)) as [-> | Hne]; [exact Hm|].
        apply Hnone. lia.
Qed.

Lemma storeSSIDs_new_fields ssid timestamp m :
  history_wf m -> history_room m ->
  let m' := storeSSIDs_new clock_monotonic ssid timestamp m in
  ssid_num m' = ssid_num m + 1 /\
  ssids m' = ssids m ++ [ssid] /\
  num_timestamps m' = num_timestamps m ++ [1] /\
  timestamps m' = timestamps m ++ [[timestamp]] /\
  latencies m' = latencies m ++ [[F32.sub (aggregation_time clock_monotonic m) timestamp]] /\
  ssid_queue m' = ssid_queue m /\
  clock_reads m' = S (clock_reads m).
Proof.
  intros [Hn Hss Hns Hts Hls _] [Hmax _].
  unfold storeSSIDs_new, getCurrentTimestamp, clock_gettime.
  cbn [ssid_num ssids num_timestamps timestamps latencies ssid_queue clock_reads
       set_clock_reads set_history].
  assert (E1 : to_u64 (ssid_num m + 1) = ssid_num m + 1)
    by (unfold to_u64, to_unsigned; apply Z.mod_small; lia).
  rewrite E1.
  assert (E2 : to_u64 (ssid_num m + 1 - 1) = ssid_num m).
  { replace (ssid_num m + 1 - 1) with (ssid_num m) by lia.
    unfold to_u64, to_unsigned. apply Z.mod_small. lia. }
  rewrite E2.
  rewrite !realloc_store by lia.
  repeat split; reflexivity.
Qed.

(** The aggregation of a pair, as a relation between the histories. *)
Lemma aggregate_aggregated ssid timestamp m :
  history_wf m -> history_room m ->
  let m' := aggregate clock_monotonic ssid timestamp m in
  aggregated ssid timestamp (F32.sub (aggregation_time clock_monotonic m) timestamp) m m' /\
  ssid_queue m' = ssid_queue m /\
  clock_reads m' = S (clock_reads m).
Proof.
  intros Hwf Hroom. cbn zeta. unfold aggregate.
  pose proof (storeSSIDs_for_spec ssid timestamp m (Z.to_nat (ssid_num m)) O
                Hwf Hroom ltac:(lia)) as Hfor.
  change (Z.of_nat 0) with 0 in Hfor.
  destruct (storeSSIDs_for clock_monotonic (Z.to_nat (ssid_num m)) 0 ssid timestamp m) as [[|] m'].
  - destruct Hfor as (k & Hk & Hm & Hbefore & ->).
    destruct (storeSSIDs_append_fields k timestamp m Hwf Hroom ltac:(lia))
      as (H1 & H2 & H3 & H4 & H5 & H6 & H7).
    split; [|split; assumption].
    apply (aggregated_append _ _ _ _ _ k); try assumption; try lia.
    intros j Hj. apply Hbefore. lia.
  - destruct Hfor as [-> Hnone].
    destruct (storeSSIDs_new_fields ssid timestamp m Hwf Hroom)
      as (H1 & H2 & H3 & H4 & H5 & H6 & H7).
    split; [|split; assumption].
    apply aggregated_new; try assumption.
    intros j Hj. apply Hnone. lia.
Qed.

End History.

(** ** Floating point: the sign of a difference *)

Section FloatSign.

Variables prec emax : Z.

Lemma digits2_pos_bounds (m : positive) :
  2 ^ (Zpos (digits2_pos m) - 1) <= Zpos m < 2 ^ Zpos (digits2_pos m).
Proof.
  induction m as [m IH | m IH |]; cbn [digits2_pos].
  - rewrite Pos2Z.inj_succ, Z.pow_succ_r by lia.
    replace (Z.succ (Zpos (digits2_pos m)) - 1)
      with (Z.succ (Zpos (digits2_pos m) - 1)) by lia.
    rewrite Z.pow_succ_r by lia. lia.
  - rewrite Pos2Z.inj_succ, Z.pow_succ_r by lia.
    replace (Z.succ (Zpos (digits2_pos m)) - 1)
      with (Z.succ (Zpos (digits2_pos m) - 1)) by lia.
    rewrite Z.pow_succ_r by lia. lia.
  - cbn. lia.
Qed.

Lemma iter_xO_value (m d : positive) :
  Zpos (Pos.iter xO m d) = Zpos m * 2 ^ Zpos d.
Proof.
  induction d as [|d IH] using Pos.peano_ind.
  - cbn. lia.
  - rewrite Pos.iter_succ, Pos2Z.inj_succ, Z.pow_succ_r by lia.
    rewrite Pos2Z.inj_xO, IH. lia.
Qed.

(** The mantissa aligned to a smaller exponent denotes the same number. *)
Lemma shl_align_value (m : positive) (e e' : Z) :
  e' <= e -> Zpos (fst (shl_align m e e')) = Zpos m * 2 ^ (e - e').
Proof.
  intros Hle. unfold shl_align.
  destruct (e' - e) as [|d|d] eqn:Hd; cbn [fst].
  - replace (e - e') with 0 by lia. lia.
  - lia.
  - rewrite iter_xO_value. f_equal. f_equal. lia.
Qed.

Lemma shr_1_nonneg mrs : 0 <= shr_m mrs -> 0 <= shr_m (shr_1 mrs).
Proof.
  destruct mrs as [m r s]. cbn [shr_m].
  destruct m as [|[p|p|]|p]; cbn; lia.
Qed.

Lemma iter_shr_1_nonneg (p : positive) : forall mrs,
  0 <= shr_m mrs -> 0 <= shr_m (SpecFloat.iter_pos shr_1 p mrs).
Proof.
  induction p as [p IH | p IH |]; intros mrs H; cbn [SpecFloat.iter_pos].
  - apply IH, IH, shr_1_nonneg, H.
  - apply IH, IH, H.
  - apply shr_1_nonneg, H.
Qed.

Lemma shr_fexp_nonneg m e l :
  0 <= m -> 0 <= shr_m (fst (shr_fexp prec emax m e l)).
Proof.
  intros Hm. unfold shr_fexp, shr.
  assert (H0 : 0 <= shr_m (shr_record_of_loc m l)) by (destruct l as [|[]]; exact Hm).
  destruct (fexp prec emax (Zdigits2 m + e) - e); cbn [fst]; try exact H0.
  now apply iter_shr_1_nonneg.
Qed.

Lemma round_nearest_even_nonneg m l : 0 <= m -> 0 <= round_nearest_even m l.
Proof.
  intros Hm. destruct l as [|[]]; cbn [round_nearest_even]; try lia.
  destruct (Z.even m); lia.
Qed.

(** Rounding a mantissa that is not negative, with a positive sign,
    gives a zero, a positive number or the positive infinity. *)
Lemma binary_round_aux_nonneg m e l :
  0 <= m -> SFnonneg (binary_round_aux prec emax false m e l).
Proof.
  intros Hm. unfold binary_round_aux.
  pose proof (shr_fexp_nonneg m e l Hm) as H1.
  destruct (shr_fexp prec emax m e l) as [mrs' e']. cbn [fst] in H1.
  pose proof (shr_fexp_nonneg _ e' loc_Exact
                (round_nearest_even_nonneg _ (loc_of_shr_record mrs') H1)) as H2.
  destruct (shr_fexp prec emax _ e' loc_Exact) as [mrs'' e'']. cbn [fst] in H2.
  destruct (shr_m mrs'') as [|p|p]; [reflexivity | | lia].
  destruct (e'' <=? emax - prec); reflexivity.
Qed.

Lemma binary_normalize_nonneg m e :
  0 <= m -> SFnonneg (binary_normalize prec emax m e false).
Proof.
  intros Hm. destruct m as [|p|p]; [reflexivity | | lia].
  cbn [binary_normalize]. unfold binary_round.
  destruct (shl_align p e _) as [mz ez]. now apply binary_round_aux_nonneg.
Qed.

(** Of two canonical numbers, the one with the larger exponent has the
    larger aligned mantissa. *)
Lemma bounded_exponent_lt m1 e1 m2 e2 :
  bounded prec emax m1 e1 = true -> bounded prec emax m2 e2 = true ->
  e1 < e2 -> Zpos m1 < Zpos m2 * 2 ^ (e2 - e1).
Proof.
  unfold bounded, canonical_mantissa, fexp.
  intros H1 H2 Hlt.
  apply andb_true_iff in H1 as [H1 _]. apply andb_true_iff in H2 as [H2 _].
  apply Z.eqb_eq in H1, H2.
  pose proof (digits2_pos_bounds m1) as [_ Hb1].
  pose proof (digits2_pos_bounds m2) as [Hb2 _].
  set (d1 := Zpos (digits2_pos m1)) in *. set (d2 := Zpos (digits2_pos m2)) in *.
  assert (Hd1 : d1 <= prec) by lia.
  assert (Hd2 : d2 = prec) by lia.
  assert (Hd1' : 0 < d1) by (unfold d1; lia).
  assert (Hp : 2 ^ d1 <= 2 ^ prec) by (apply Z.pow_le_mono_r; lia).
  assert (Hs : 2 * 2 ^ (d2 - 1) = 2 ^ prec).
  { rewrite <- Z.pow_succ_r by lia. f_equal. lia. }
  assert (He : 2 <= 2 ^ (e2 - e1)).
  { change 2 with (2 ^ 1) at 1. apply Z.pow_le_mono_r; lia. }
  nia.
Qed.

(** If [y <= x] for two binary floating-point numbers, [y] finite, then
    [x - y] is not negative (and not a NaN). *)
Lemma SFsub_nonneg (x y : spec_float) :
  valid_binary prec emax x = true -> valid_binary prec emax y = true ->
  is_finite y = true -> SFleb y x = true ->
  SFnonneg (SFsub prec emax x y).
Proof.
  intros Hx Hy Hfin Hle.
  destruct y as [sy | sy | | sy my ey]; try discriminate Hfin;
    destruct x as [sx | sx | | sx mx ex]; try discriminate Hle.
  - destruct sx, sy; reflexivity.
  - destruct sx; [discriminate Hle | reflexivity].
  - destruct sx; [discriminate Hle | reflexivity].
  - destruct sy; [reflexivity | discriminate Hle].
  - destruct sx; [discriminate Hle | reflexivity].
  - cbn [valid_binary] in Hx, Hy. cbn [SFsub].
    apply binary_normalize_nonneg.
    rewrite !shl_align_value by lia.
    pose proof (Z.pow_nonneg 2 (ex - Z.min ex ey) ltac:(lia)) as Px.
    pose proof (Z.pow_nonneg 2 (ey - Z.min ex ey) ltac:(lia)) as Py.
    unfold SFleb, SFcompare in Hle.
    destruct sx, sy; cbn [cond_Zopp]; try discriminate Hle; [| nia |].
    + (* both negative *)
      destruct (Z.compare_spec ey ex) as [Heq | Hlt | Hgt]; try discriminate Hle.
      * subst ey. rewrite Z.min_id, Z.sub_diag, !Z.mul_1_r.
        change (Pos.compare_cont Eq my mx) with (Pos.compare my mx) in Hle.
        destruct (Pos.compare_spec my mx); try discriminate Hle; lia.
      * pose proof (bounded_exponent_lt _ _ _ _ Hx Hy Hgt) as Hb.
        rewrite Z.min_l by lia. rewrite Z.sub_diag, Z.mul_1_r. lia.
    + (* both positive *)
      destruct (Z.compare_spec ey ex) as [Heq | Hlt | Hgt]; try discriminate Hle.
      * subst ey. rewrite Z.min_id, Z.sub_diag, !Z.mul_1_r.
        change (Pos.compare_cont Eq my mx) with (Pos.compare my mx) in Hle.
        destruct (Pos.compare_spec my mx); try discriminate Hle; lia.
      * pose proof (bounded_exponent_lt _ _ _ _ Hy Hx Hlt) as Hb.
        rewrite Z.min_r by lia. rewrite Z.sub_diag, Z.mul_1_r. lia.
Qed.

End FloatSign.

(** ** The aggregation step of the consumer *)

Section Aggregation.

Variable clock_monotonic : nat -> timespec.

Lemma aggregated_wf ssid timestamp latency m m' :
  history_wf m -> aggregated ssid timestamp latency m m' -> history_wf m'.
Proof.
  intros [Hn Hss Hns Hts Hls Hentry] [k Hk _ _ En Es Ens Ets Els | _ En Es Ens Ets Els].
  - split; rewrite ?En, ?Es, ?Ens, ?Ets, ?Els, ?length_insert; try assumption.
    intros j Hj. destruct (decide (j = k)) as [-> | Hne].
    + destruct (Hentry k Hk) as (H1 & H2 & H3).
      rewrite !list_lookup_total_insert_eq by lia.
      rewrite !length_app. cbn [length]. lia.
    + rewrite !list_lookup_total_insert_ne by congruence. now apply Hentry.
  - split; rewrite ?En, ?Es, ?Ens, ?Ets, ?Els, ?length_app; cbn [length]; try lia.
    intros j Hj. destruct (decide (j < Z.to_nat (ssid_num m))%nat) as [Hlt | Hge].
    + rewrite !lookup_total_app_l by lia. now apply Hentry.
    + assert (Ej : j = Z.to_nat (ssid_num m)) by lia.
      rewrite !lookup_total_app_r by lia.
      rewrite Hns, Hts, Hls, Ej, Nat.sub_diag. cbn. lia.
Qed.

(** [storeSSIDs] dequeues a pair and aggregates it. *)
Lemma storeSSIDs_aggregated m :
  history_wf m -> history_room m ->
  let '(ssid, timestamp) := (queuePop (ssid_queue m)).1 in
  let m' := storeSSIDs clock_monotonic m in
  aggregated ssid timestamp
    (F32.sub (aggregation_time clock_monotonic m) timestamp) m m' /\
  ssid_queue m' = (queuePop (ssid_queue m)).2 /\
  clock_reads m' = S (clock_reads m).
Proof.
  intros Hwf Hroom. unfold storeSSIDs.
  destruct (queuePop (ssid_queue m)) as [[ssid timestamp] q]. cbn [fst snd].
  assert (Hwf1 : history_wf (set_ssid_queue q m)) by (destruct Hwf; now split).
  destruct (aggregate_aggregated clock_monotonic ssid timestamp _ Hwf1 Hroom)
    as (Hagg & Hq & Hc).
  split; [|split; assumption].
  destruct Hagg as [k Hk Hm Hb En Es Ens Ets Els | Hnone En Es Ens Ets Els].
  - now apply (aggregated_append _ _ _ _ _ k).
  - now apply aggregated_new.
Qed.

(** C5: the history that is empty at start-up is well formed, and for
    every well-formed history whose counters can still be incremented, the
    history after an aggregation step is well formed: every entry has as
    many latencies as timestamps, as many as its counter says. The step
    either appends one timestamp and one latency to one entry, or creates
    an entry with one timestamp and one latency. *)
Theorem storeSSIDs_equal_lengths m :
  history_wf m -> history_room m ->
  let '(ssid, timestamp) := (queuePop (ssid_queue m)).1 in
  let m' := storeSSIDs clock_monotonic m in
  history_wf initial_machine /\
  history_wf m' /\
  (forall k : nat, (k < Z.to_nat (ssid_num m'))%nat ->
     length (timestamps m' !!! k) = length (latencies m' !!! k)) /\
  ((exists k : nat, (k < Z.to_nat (ssid_num m))%nat /\
      ssid_num m' = ssid_num m /\
      timestamps m' = <[k := timestamps m !!! k ++ [timestamp]]> (timestamps m) /\
      (exists latency,
         latencies m' = <[k := latencies m !!! k ++ [latency]]> (latencies m))) \/
   (ssid_num m' = ssid_num m + 1 /\
    ssids m' = ssids m ++ [ssid] /\
    timestamps m' = timestamps m ++ [[timestamp]] /\
    (exists latency, latencies m' = latencies m ++ [[latency]]))).
Proof.
  intros Hwf Hroom.
  pose proof (storeSSIDs_aggregated m Hwf Hroom) as Hagg.
  destruct (queuePop (ssid_queue m)).1 as [ssid timestamp].
  destruct Hagg as (Hagg & _ & _).
  pose proof (aggregated_wf _ _ _ _ _ Hwf Hagg) as Hwf'.
  split; [|split; [exact Hwf' | split]].
  - split; cbn; lia.
  - intros k Hk. destruct (hwf_entry _ Hwf' k Hk) as (_ & -> & ->). reflexivity.
  - destruct Hagg as [k Hk Hm Hb En Es Ens Ets Els | Hnone En Es Ens Ets Els].
    + left. exists k. eauto 10.
    + right. eauto 10.
Qed.

(** C6: the latency an aggregation step records with the timestamp it
    appends is the clock reading taken by the step minus that timestamp,
    in [f32_t] arithmetic; when the timestamp is a finite number not above
    that reading, the latency is not negative. *)
Theorem storeSSIDs_latency m :
  history_wf m -> history_room m ->
  let '(ssid, timestamp) := (queuePop (ssid_queue m)).1 in
  let now := timestamp_of (clock_monotonic (clock_reads m)) in
  aggregated ssid timestamp (F32.sub now timestamp) m (storeSSIDs clock_monotonic m) /\
  (F32.valid timestamp = true -> F32.valid now = true ->
   F32.is_finite timestamp = true -> F32.leb timestamp now = true ->
   F32.leb F32.zero (F32.sub now timestamp) = true).
Proof.
  intros Hwf Hroom.
  pose proof (storeSSIDs_aggregated m Hwf Hroom) as Hagg.
  destruct (queuePop (ssid_queue m)).1 as [ssid timestamp].
  destruct Hagg as (Hagg & _ & _).
  split; [exact Hagg|].
  intros Hvt Hvn Hfin Hle. now apply SFsub_nonneg.
Qed.

(** When every entry of the SSID already ends with the new timestamp, the
    loop of [storeSSIDs] finds no entry and a further entry is created
    for the same SSID. *)
Lemma storeSSIDs_repeat_new_entry m :
  history_wf m -> history_room m ->
  let '(ssid, timestamp) := (queuePop (ssid_queue m)).1 in
  (forall k : nat, (k < Z.to_nat (ssid_num m))%nat -> ssids m !!! k = ssid ->
     F32.eqb ((timestamps m !!! k) !!! Z.to_nat (to_u32 (num_timestamps m !!! k - 1)))
             timestamp = true) ->
  let m' := storeSSIDs clock_monotonic m in
  ssid_num m' = ssid_num m + 1 /\ ssids m' = ssids m ++ [ssid] /\
  timestamps m' = timestamps m ++ [[timestamp]].
Proof.
  intros Hwf Hroom.
  pose proof (storeSSIDs_aggregated m Hwf Hroom) as Hagg.
  destruct (queuePop (ssid_queue m)).1 as [ssid timestamp].
  intros Hrep. destruct Hagg as (Hagg & _ & _).
  destruct Hagg as [k Hk Hm Hb En Es Ens Ets Els | Hnone En Es Ens Ets Els].
  - exfalso. unfold entry_matches in Hm. apply andb_true_iff in Hm as [Hs Hne].
    apply String.eqb_eq in Hs. specialize (Hrep k Hk Hs).
    unfold F32.neb in Hne. unfold F32.eqb in Hrep. rewrite Hrep in Hne. discriminate.
  - auto.
Qed.

End Aggregation.

(** ** The production cycle *)

Section Production.

Variable clock_monotonic : nat -> timespec.

Lemma storeSSIDs_for_queue ssid timestamp (fuel : nat) : forall i m,
  ssid_queue (storeSSIDs_for clock_monotonic fuel i ssid timestamp m).2 = ssid_queue m.
Proof.
  induction fuel as [|fuel IH]; intros i m; cbn [storeSSIDs_for]; [reflexivity|].
  destruct (i <? ssid_num m); [|reflexivity].
  destruct (_ && _); [reflexivity | apply IH].
Qed.

(** The aggregation leaves the queue as [queuePop] left it. *)
Lemma storeSSIDs_queue m :
  ssid_queue (storeSSIDs clock_monotonic m) = (queuePop (ssid_queue m)).2.
Proof.
  unfold storeSSIDs. destruct (queuePop (ssid_queue m)) as [[ssid timestamp] q].
  cbn [snd]. unfold aggregate.
  pose proof (storeSSIDs_for_queue ssid timestamp
                (Z.to_nat (ssid_num (set_ssid_queue q m))) 0 (set_ssid_queue q m)) as H.
  destruct (storeSSIDs_for _ _ _ _ _ _) as [[|] m']; cbn [snd] in H; [exact H|].
  unfold storeSSIDs_new, getCurrentTimestamp, clock_gettime. cbn. exact H.
Qed.

Lemma task_step_queue_wf m m' :
  task_step clock_monotonic m m' -> queue_wf (ssid_queue m) -> queue_wf (ssid_queue m').
Proof.
  intros [m0 | popen_result m0 m1 Hread | m0 m1 Hstore] Hwf.
  - exact Hwf.
  - unfold READ_TASK_critical in Hread.
    destruct (full (ssid_queue m0)); [discriminate|]. injection Hread as <-.
    destruct popen_result as [stream|]; [|exact Hwf].
    apply (readSSID_lines_contents clock_monotonic (file_lines stream) m0 Hwf).
  - unfold STORE_TASK_critical in Hstore.
    destruct (empty (ssid_queue m0)) eqn:Hne; [discriminate|]. injection Hstore as <-.
    rewrite storeSSIDs_queue. now apply queuePop_wf.
Qed.

(** For every buffer [fgets] fills during one scan, with the state
    [before] the buffer reached after the buffers that precede it: a
    buffer that starts with the sentinel leaves the state as it is; any
    other buffer is enqueued, with the reading of the clock taken at that
    moment, when the queue is not full, and leaves the state as it is when
    the queue is full. *)
Lemma readSSID_each_buffer m stream pre ssid post :
  queue_wf (ssid_queue m) ->
  file_lines stream = pre ++ ssid :: post ->
  let before := fold_left (readSSID_line clock_monotonic) pre m in
  let after := readSSID_line clock_monotonic before ssid in
  readSSID clock_monotonic (Some stream) m
    = fold_left (readSSID_line clock_monotonic) post after /\
  (is_sentinel ssid = true -> after = before) /\
  (is_sentinel ssid = false ->
     (full (ssid_queue before) = false ->
        queue_contents (ssid_queue after) =
          queue_contents (ssid_queue before)
          ++ [(ssid, timestamp_of (clock_monotonic (clock_reads before)))]) /\
     (full (ssid_queue before) = true -> after = before)).
Proof.
  intros Hwf Hlines. cbn zeta. cbn [readSSID].
  rewrite Hlines, fold_left_app. cbn [fold_left].
  split; [reflexivity|].
  destruct (readSSID_lines_contents clock_monotonic pre m Hwf) as (Hwf' & _ & _).
  split; [|split].
  - intros Hs. apply readSSID_line_skip. now left.
  - intros Hf. rewrite readSSID_line_add by assumption.
    cbn [ssid_queue set_ssid_queue set_clock_reads clock_reads].
    now apply queueAdd_contents.
  - intros Hf. apply readSSID_line_skip. now right.
Qed.

(** C9: when [popen] fails, [readSSID] leaves every static variable as
    it is, the queue with them; the iteration of the read task that
    contains it moves nothing but the timer of the task. *)
Theorem readSSID_popen_failure m :
  readSSID clock_monotonic None m = m /\
  ssid_queue (READ_TASK_next_shot m) = ssid_queue m /\
  READ_TASK_critical clock_monotonic None (READ_TASK_next_shot m)
    = (if full (ssid_queue m) then None else Some (READ_TASK_next_shot m)).
Proof. repeat split. Qed.

End Production.

(** ** Start-up and the period of the producer *)

Section Startup.

Variable clock_monotonic : nat -> timespec.

Lemma INIT_TASK_exit argc argv m :
  (INIT_TASK argc argv m).2 = Exited EXIT_ARGUMENTS <-> argc <> 2.
Proof.
  unfold INIT_TASK. destruct (argc =? 2) eqn:E; cbn [negb snd].
  - apply Z.eqb_eq in E. split; [discriminate | contradiction].
  - apply Z.eqb_neq in E. split; [intros _; exact E | reflexivity].
Qed.

Lemma strtoul_unparseable nptr :
  Strtoul.unparseable nptr -> Strtoul.strtoul nptr = 0.
Proof.
  unfold Strtoul.unparseable, Strtoul.strtoul.
  destruct (Strtoul.subject nptr) as [[neg base] ds]. cbn [snd]. intros ->.
  cbn. destruct neg; reflexivity.
Qed.

(** With a period of zero, [updateInterval] leaves a normalised timer
    where it is. *)
Lemma updateInterval_zero t :
  0 <= tv_nsec t < NSEC_PER_SEC -> updateInterval t 0 = t.
Proof.
  intros Hn. unfold updateInterval, NSEC_PER_SEC in *. change to_u64 with to_ulong.
  rewrite Z.add_0_r, (to_ulong_small (tv_nsec t)) by lia.
  rewrite (to_ulong_small (tv_nsec t)) by lia.
  rewrite to_long_small by (unfold LONG_MIN, LONG_MAX; lia).
  rewrite normalize_loop_eq. cbn [tv_nsec].
  rewrite (to_ulong_small (tv_nsec t)) by lia.
  destruct (Z_le_gt_dec NSEC_PER_SEC (tv_nsec t)) as [Hge | _];
    [unfold NSEC_PER_SEC in Hge; lia|].
  now destruct t.
Qed.

Lemma readSSID_timer popen_result m :
  read_task_timer (readSSID clock_monotonic popen_result m) = read_task_timer m /\
  read_cycle_time (readSSID clock_monotonic popen_result m) = read_cycle_time m.
Proof.
  destruct popen_result as [stream|]; [|now split]. cbn [readSSID].
  generalize (file_lines stream). intros lines. revert m.
  induction lines as [|ssid lines IH]; intros m; [now split|].
  cbn [fold_left]. destruct (IH (readSSID_line clock_monotonic m ssid)) as [-> ->].
  unfold readSSID_line. destruct (_ && _); now split.
Qed.

Lemma storeSSIDs_for_timer ssid timestamp (fuel : nat) : forall i m,
  let m' := (storeSSIDs_for clock_monotonic fuel i ssid timestamp m).2 in
  read_task_timer m' = read_task_timer m /\ read_cycle_time m' = read_cycle_time m.
Proof.
  induction fuel as [|fuel IH]; intros i m; cbn [storeSSIDs_for]; [now split|].
  destruct (i <? ssid_num m); [|now split].
  destruct (_ && _); [now split | apply IH].
Qed.

Lemma storeSSIDs_timer m :
  read_task_timer (storeSSIDs clock_monotonic m) = read_task_timer m /\
  read_cycle_time (storeSSIDs clock_monotonic m) = read_cycle_time m.
Proof.
  unfold storeSSIDs. destruct (queuePop (ssid_queue m)) as [[ssid timestamp] q].
  unfold aggregate.
  pose proof (storeSSIDs_for_timer ssid timestamp
                (Z.to_nat (ssid_num (set_ssid_queue q m))) 0 (set_ssid_queue q m)) as H.
  destruct (storeSSIDs_for _ _ _ _ _ _) as [[|] m']; cbn [snd] in H; [exact H|].
  unfold storeSSIDs_new, getCurrentTimestamp, clock_gettime. cbn. exact H.
Qed.

Lemma task_step_zero_period m m' :
  task_step clock_monotonic m m' ->
  read_cycle_time m = 0 -> 0 <= tv_nsec (read_task_timer m) < NSEC_PER_SEC ->
  read_task_timer m' = read_task_timer m /\ read_cycle_time m' = 0.
Proof.
  intros [m0 | popen_result m0 m1 Hread | m0 m1 Hstore] Hzero Hn.
  - unfold READ_TASK_next_shot. cbn [read_task_timer read_cycle_time set_read_task_timer].
    rewrite Hzero, updateInterval_zero by exact Hn. now split.
  - unfold READ_TASK_critical in Hread.
    destruct (full (ssid_queue m0)); [discriminate|]. injection Hread as <-.
    destruct (readSSID_timer popen_result m0) as [-> ->]. now split.
  - unfold STORE_TASK_critical in Hstore.
    destruct (empty (ssid_queue m0)); [discriminate|]. injection Hstore as <-.
    destruct (storeSSIDs_timer m0) as [-> ->]. now split.
Qed.

(** C2, as amended: when memory locking and CPU pinning succeed, every
    invocation with an argument count other than one program argument
    exits with the code of the configuration error, after the real-time
    setup (memory locking, stack prefaulting, CPU pinning) and before any
    task is created; the three fatal exit codes are pairwise distinct and
    not zero, as arguments of [exit] and as statuses seen by the parent. *)
Theorem main_wrong_argument_count env :
  argc env <> 2 ->
  mlockall_result env <> -1 -> sched_setaffinity_result env <> -1 ->
  main env =
    ([EvMlockall; EvPrefaultStack; EvSchedSetaffinity;
      EvPerror "Wrong number of arguments"; EvExit EXIT_ARGUMENTS],
     Exited EXIT_ARGUMENTS) /\
  (EXIT_ARGUMENTS <> EXIT_MLOCKALL /\ EXIT_ARGUMENTS <> EXIT_AFFINITY /\
   EXIT_MLOCKALL <> EXIT_AFFINITY) /\
  (EXIT_ARGUMENTS <> 0 /\ EXIT_MLOCKALL <> 0 /\ EXIT_AFFINITY <> 0) /\
  (wait_status EXIT_ARGUMENTS <> wait_status EXIT_MLOCKALL /\
   wait_status EXIT_ARGUMENTS <> wait_status EXIT_AFFINITY /\
   wait_status EXIT_MLOCKALL <> wait_status EXIT_AFFINITY) /\
  (wait_status EXIT_ARGUMENTS <> 0 /\ wait_status EXIT_MLOCKALL <> 0 /\
   wait_status EXIT_AFFINITY <> 0).
Proof.
  intros Hargc Hm Ha. split.
  - unfold main, INIT_TASK.
    apply Z.eqb_neq in Hargc, Hm, Ha. rewrite Hargc, Hm, Ha. reflexivity.
  - repeat split; discriminate.
Qed.

Lemma main_wrong_argument_count_witness :
  main {| mlockall_result := 0; sched_setaffinity_result := 0;
          argc := 3; argv := ["scanner"; "2"; "5"] |} =
    ([EvMlockall; EvPrefaultStack; EvSchedSetaffinity;
      EvPerror "Wrong number of arguments"; EvExit EXIT_ARGUMENTS],
     Exited EXIT_ARGUMENTS).
Proof.
  apply (main_wrong_argument_count
           {| mlockall_result := 0; sched_setaffinity_result := 0;
              argc := 3; argv := ["scanner"; "2"; "5"] |}); cbn; lia.
Defined.

(** C2 as stated fails: the argument count is checked after the
    real-time setup, and a failure of that setup ends the process with
    its own code whatever the argument count is. *)
Lemma main_checks_arguments_last :
  let env := {| mlockall_result := 0; sched_setaffinity_result := 0;
                argc := 1; argv := ["scanner"] |} in
  let env' := {| mlockall_result := -1; sched_setaffinity_result := 0;
                 argc := 1; argv := ["scanner"] |} in
  argc env <> 2 /\
  (main env).1 = [EvMlockall; EvPrefaultStack; EvSchedSetaffinity;
                  EvPerror "Wrong number of arguments"; EvExit EXIT_ARGUMENTS] /\
  existsb is_rt_setup (main env).1 = true /\
  argc env' <> 2 /\
  (main env').2 = Exited EXIT_MLOCKALL /\
  (main env').2 <> Exited EXIT_ARGUMENTS.
Proof. cbn. repeat split; try reflexivity; discriminate. Qed.

Lemma main_exit_arguments env :
  (main env).2 = Exited EXIT_ARGUMENTS <->
  (mlockall_result env <> -1 /\ sched_setaffinity_result env <> -1 /\ argc env <> 2).
Proof.
  unfold main.
  destruct (mlockall_result env =? -1) eqn:Em;
    [apply Z.eqb_eq in Em | apply Z.eqb_neq in Em].
  { cbn [snd]. split; [discriminate | intros [? _]; contradiction]. }
  destruct (sched_setaffinity_result env =? -1) eqn:Ea;
    [apply Z.eqb_eq in Ea | apply Z.eqb_neq in Ea].
  { cbn [snd]. split; [discriminate | intros (_ & ? & _); contradiction]. }
  pose proof (INIT_TASK_exit (argc env) (argv env) initial_machine) as Hinit.
  destruct (INIT_TASK (argc env) (argv env) initial_machine) as [evs [m | status]];
    cbn [snd] in *.
  - split; [discriminate|]. intros (_ & _ & H). apply Hinit in H. discriminate.
  - rewrite Hinit. tauto.
Qed.

(** C10, as amended: [main], followed to its end, exits with the code of
    the configuration error exactly when the argument count is not 2 and
    its real-time setup, memory locking and CPU pinning, has succeeded;
    [INIT_TASK], once reached, exits with that code exactly when the
    argument count is not 2. With one argument in which [strtoul] finds no
    digit to convert, [main] reports no error and creates the two tasks
    with a cycle time of zero; and with a cycle time of zero the timer of
    the read task, once normalised, stays where it is whatever the two
    tasks do. *)
Theorem unparseable_period_never_advances :
  (forall env join_1 join_2,
     (main_to_exit env join_1 join_2).2 = Exited EXIT_ARGUMENTS <->
     (mlockall_result env <> -1 /\ sched_setaffinity_result env <> -1 /\ argc env <> 2)) /\
  (forall env,
     (main env).2 = Exited EXIT_ARGUMENTS <->
     (mlockall_result env <> -1 /\ sched_setaffinity_result env <> -1 /\ argc env <> 2)) /\
  (forall argc argv m,
     (INIT_TASK argc argv m).2 = Exited EXIT_ARGUMENTS <-> argc <> 2) /\
  (forall env,
     mlockall_result env <> -1 -> sched_setaffinity_result env <> -1 -> argc env = 2 ->
     Strtoul.unparseable (argv env !!! 1%nat) ->
     exists m',
       main env = ([EvMlockall; EvPrefaultStack; EvSchedSetaffinity; EvQueueInit;
                    EvPthreadCreate "READ_TASK"; EvPthreadCreate "STORE_TASK"],
                   Returned m') /\
       read_cycle_time m' = 0) /\
  (forall argv m,
     Strtoul.unparseable (argv !!! 1%nat) ->
     exists m', INIT_TASK 2 argv m = ([EvQueueInit], Returned m') /\
                read_cycle_time m' = 0) /\
  (forall m m',
     read_cycle_time m = 0 -> 0 <= tv_nsec (read_task_timer m) < NSEC_PER_SEC ->
     rtc (task_step clock_monotonic) m m' ->
     read_task_timer m' = read_task_timer m /\ read_cycle_time m' = 0).
Proof.
  split; [|split; [|split; [|split; [|split]]]].
  - intros env join_1 join_2. rewrite <- main_exit_arguments. unfold main_to_exit.
    destruct (main env) as [evs [m | status]]; cbn [snd]; [|reflexivity].
    destruct join_1, join_2; cbn [snd]; split; discriminate.
  - exact main_exit_arguments.
  - exact INIT_TASK_exit.
  - intros env Hm Ha Hargc Hun. unfold main, INIT_TASK.
    apply Z.eqb_neq in Hm, Ha. rewrite Hm, Ha, Hargc. cbn [Z.eqb Pos.eqb negb app].
    eexists. split; [reflexivity|].
    cbn [read_cycle_time set_ssid_queue set_read_cycle_time].
    now rewrite (strtoul_unparseable _ Hun).
  - intros argv m Hun. unfold INIT_TASK. cbn [Z.eqb Pos.eqb negb].
    eexists. split; [reflexivity|].
    cbn [read_cycle_time set_ssid_queue set_read_cycle_time].
    now rewrite (strtoul_unparseable _ Hun).
  - intros m m' Hzero Hn Hsteps.
    induction Hsteps as [|m0 m1 m2 Hstep _ IH]; [now split|].
    destruct (task_step_zero_period _ _ Hstep Hzero Hn) as [Ht Hc].
    rewrite <- Ht. apply IH; [exact Hc | now rewrite Ht].
Qed.

(** C10 as stated fails. With a wrong argument count and a CPU pinning
    that fails, [main] exits with the code of the pinning, not with the
    code of the configuration error. And the argument -1 is not an
    unsigned integer, yet [strtoul] converts it, to [ULONG_MAX]: the cycle
    time is 2^64 - 10^9 nanoseconds, not zero. *)
Lemma main_exit_code_and_negative_period :
  let env := {| mlockall_result := 0; sched_setaffinity_result := -1;
                argc := 3; argv := ["scanner"; "2"; "5"]%string |} in
  let m' := set_ssid_queue (init_queue initial_queue)
              (set_read_cycle_time (2 ^ 64 - NSEC_PER_SEC) initial_machine) in
  argc env <> 2 /\
  (forall join_1 join_2, (main_to_exit env join_1 join_2).2 = Exited EXIT_AFFINITY) /\
  EXIT_AFFINITY <> EXIT_ARGUMENTS /\
  Strtoul.strtoul "-1" = ULONG_MAX /\
  INIT_TASK 2 ["scanner"; "-1"]%string initial_machine = ([EvQueueInit], Returned m') /\
  read_cycle_time m' <> 0.
Proof.
  cbn zeta. split; [discriminate|]. split; [intros [|] [|]; reflexivity|].
  split; [discriminate|]. split; [reflexivity|]. split; [reflexivity|]. discriminate.
Qed.

End Startup.

(** ** The worked run *)

Section WorkedRun.

Lemma started_queue_wf : queue_wf (ssid_queue started).
Proof. apply (init_queue_wf initial_queue); reflexivity. Qed.

Lemma stored_once_fields :
  ssid_num stored_once = 1 /\
  ssids stored_once = [line "NetA"] /\
  num_timestamps stored_once = [1] /\
  timestamps stored_once = [[F32.of_Z 1000]] /\
  latencies stored_once = [[F32.zero]].
Proof. vm_compute. repeat split; reflexivity. Qed.

Lemma stored_once_history :
  history_wf stored_once /\ history_room stored_once.
Proof.
  destruct stored_once_fields as (E1 & E2 & E3 & E4 & E5).
  split; [split | split]; rewrite ?E1, ?E2, ?E3, ?E4, ?E5;
    try reflexivity; try lia.
  - intros [|k] Hk; [cbn; lia | cbn in Hk; lia].
  - intros [|k] Hk; [cbn; lia | cbn in Hk; lia].
Qed.

(** C1 fails on the code. After the first aggregation the history holds
    one entry for NetA whose last timestamp is 1000 s; the next pair in
    the queue is NetA with the same timestamp. The test of the loop of
    [storeSSIDs] rejects the entry because the timestamps are equal,
    [ssid_found] stays 0, and a second entry is created for NetA. *)
Theorem storeSSIDs_repeat_duplicates :
  let ts := F32.of_Z 1000 in
  ssids stored_once = [line "NetA"] /\
  timestamps stored_once = [[ts]] /\
  (queuePop (ssid_queue stored_once)).1 = (line "NetA", ts) /\
  F32.eqb ts ts = true /\
  ssid_num stored_twice = 2 /\
  ssids stored_twice = [line "NetA"; line "NetA"] /\
  timestamps stored_twice = [[ts]; [ts]] /\
  stored_twice <> stored_once.
Proof.
  vm_compute. repeat split; try reflexivity. discriminate.
Qed.

Lemma storeSSIDs_equal_lengths_witness :
  history_wf stored_twice /\
  (forall k : nat, (k < Z.to_nat (ssid_num stored_twice))%nat ->
     length (timestamps stored_twice !!! k) = length (latencies stored_twice !!! k)).
Proof.
  pose proof (storeSSIDs_equal_lengths example_clock stored_once
                (proj1 stored_once_history) (proj2 stored_once_history)) as H.
  destruct (queuePop (ssid_queue stored_once)).1 as [ssid timestamp].
  destruct H as (_ & Hwf & Hlen & _). exact (conj Hwf Hlen).
Defined.

Lemma storeSSIDs_latency_witness :
  let now := timestamp_of (example_clock (clock_reads stored_once)) in
  F32.leb F32.zero (F32.sub now (F32.of_Z 1000)) = true.
Proof.
  pose proof (storeSSIDs_latency example_clock stored_once
                (proj1 stored_once_history) (proj2 stored_once_history)) as H.
  change (queuePop (ssid_queue stored_once)).1
    with (line "NetA", F32.of_Z 1000) in H.
  cbv beta iota zeta in H. destruct H as [_ H].
  apply H; reflexivity.
Defined.

Lemma unparseable_period_never_advances_witness :
  let argv := ["scanner"; "fast"]%string in
  (exists m', INIT_TASK 2 argv initial_machine = ([EvQueueInit], Returned m') /\
              read_cycle_time m' = 0) /\
  read_task_timer (READ_TASK_next_shot initial_machine) = read_task_timer initial_machine.
Proof.
  destruct (unparseable_period_never_advances example_clock)
    as (_ & _ & _ & _ & Hinit & Hrun).
  split.
  - apply Hinit. reflexivity.
  - apply (Hrun initial_machine (READ_TASK_next_shot initial_machine)).
    + reflexivity.
    + split; [apply Z.leb_le | apply Z.ltb_lt]; reflexivity.
    + apply rtc_once. apply step_next_shot.
Defined.

End WorkedRun.

(** * Further properties *)

(** ** The timer, beyond one update *)

Section TimerRuns.

Variable clock_monotonic : nat -> timespec.

Lemma normalize_loop_normalised (k : nat) : forall t,
  LONG_MIN <= tv_nsec t <= LONG_MAX ->
  to_ulong (tv_nsec t) / NSEC_PER_SEC = Z.of_nat k ->
  0 <= tv_nsec (normalize_loop t) < NSEC_PER_SEC.
Proof.
  induction k as [|k IH]; intros t Hn Hk; rewrite normalize_loop_eq;
    pose proof (to_ulong_range (tv_nsec t)) as Hu;
    destruct (Z_le_gt_dec NSEC_PER_SEC (to_ulong (tv_nsec t))) as [Hge | Hlt];
    unfold NSEC_PER_SEC in *.
  - exfalso. revert Hk Hge. generalize (to_ulong (tv_nsec t)). intros u Hk Hge.
    Z.div_mod_to_equations. lia.
  - rewrite <- (to_ulong_long_small (tv_nsec t)) by lia. lia.
  - apply IH; unfold normalize_step; cbn [tv_nsec].
    + apply to_long_range.
    + rewrite to_ulong_to_long.
      set (u := to_ulong (tv_nsec t)) in *. unfold NSEC_PER_SEC.
      rewrite !(to_ulong_small (u - 1000000000)) by lia.
      Z.div_mod_to_equations. lia.
  - exfalso. revert Hk Hlt Hu. generalize (to_ulong (tv_nsec t)). intros u Hk Hlt Hu.
    Z.div_mod_to_equations. lia.
Qed.

(** X1: whatever the timer and the interval, also when their sum wraps,
    [updateInterval] leaves the nanosecond field in [0, 10^9). *)
Theorem updateInterval_normalised t interval :
  0 <= tv_nsec (updateInterval t interval) < NSEC_PER_SEC.
Proof.
  unfold updateInterval.
  set (t1 := {| tv_sec := tv_sec t; tv_nsec := _ |}).
  assert (Hr : LONG_MIN <= tv_nsec t1 <= LONG_MAX) by apply to_long_range.
  assert (Hq : 0 <= to_ulong (tv_nsec t1) / NSEC_PER_SEC).
  { apply Z.div_pos; [apply to_ulong_range | reflexivity]. }
  apply (normalize_loop_normalised (Z.to_nat (to_ulong (tv_nsec t1) / NSEC_PER_SEC)));
    [exact Hr | lia].
Qed.

(** X2: two updates in a row are one update by the sum of the intervals,
    as long as nothing overflows. *)
Theorem updateInterval_compose t a b :
  0 <= tv_nsec t < NSEC_PER_SEC -> 0 <= a -> 0 <= b ->
  tv_nsec t + a + b < 2 ^ 64 ->
  LONG_MIN <= tv_sec t ->
  tv_sec t + (tv_nsec t + a + b) / NSEC_PER_SEC <= LONG_MAX ->
  updateInterval (updateInterval t a) b = updateInterval t (a + b).
Proof.
  intros Hn Ha Hb Hsum Hlo Hhi.
  assert (Hq : (tv_nsec t + a) / NSEC_PER_SEC <= (tv_nsec t + a + b) / NSEC_PER_SEC).
  { apply Z.div_le_mono; [reflexivity | lia]. }
  assert (Hq0 : 0 <= (tv_nsec t + a) / NSEC_PER_SEC).
  { apply Z.div_pos; [lia | reflexivity]. }
  rewrite (updateInterval_spec t a) by lia.
  rewrite (updateInterval_spec t (a + b)) by (rewrite ?Z.add_assoc; lia).
  pose proof (Z.div_mod (tv_nsec t + a) NSEC_PER_SEC ltac:(discriminate)) as Hd.
  pose proof (Z.mod_pos_bound (tv_nsec t + a) NSEC_PER_SEC ltac:(reflexivity)) as Hm.
  assert (Hsplit : tv_nsec t + (a + b)
                   = (tv_nsec t + a) mod NSEC_PER_SEC + b
                     + (tv_nsec t + a) / NSEC_PER_SEC * NSEC_PER_SEC) by lia.
  assert (Hdiv : (tv_nsec t + (a + b)) / NSEC_PER_SEC
                 = ((tv_nsec t + a) mod NSEC_PER_SEC + b) / NSEC_PER_SEC
                   + (tv_nsec t + a) / NSEC_PER_SEC).
  { rewrite Hsplit. apply Z.div_add. discriminate. }
  assert (Hmod : (tv_nsec t + (a + b)) mod NSEC_PER_SEC
                 = ((tv_nsec t + a) mod NSEC_PER_SEC + b) mod NSEC_PER_SEC).
  { rewrite Hsplit. apply Z.mod_add. discriminate. }
  rewrite updateInterval_spec; cbn [tv_sec tv_nsec];
    [ rewrite Hdiv, Hmod; f_equal; lia
    | rewrite ?Z.add_assoc in Hdiv; unfold NSEC_PER_SEC in *; lia .. ].
Qed.

Lemma run_tasks_timer actions : forall m m',
  run_tasks clock_monotonic actions m = Some m' ->
  0 <= tv_nsec (read_task_timer m) < NSEC_PER_SEC ->
  0 <= read_cycle_time m -> read_cycle_time m <= 2 ^ 64 - NSEC_PER_SEC ->
  LONG_MIN <= tv_sec (read_task_timer m) ->
  tv_sec (read_task_timer m)
    + (tv_nsec (read_task_timer m) + shots actions * read_cycle_time m) / NSEC_PER_SEC
    <= LONG_MAX ->
  total_nsec (read_task_timer m')
    = total_nsec (read_task_timer m) + shots actions * read_cycle_time m /\
  0 <= tv_nsec (read_task_timer m') < NSEC_PER_SEC /\
  read_cycle_time m' = read_cycle_time m.
Proof.
  induction actions as [|action actions IH]; intros m m' Hrun Hn Hc0 Hc Hlo Hhi;
    cbn [run_tasks shots] in *.
  - injection Hrun as <-. repeat split; lia.
  - destruct action as [|popen_result|].
    + set (t := read_task_timer m) in *. set (c := read_cycle_time m) in *.
      assert (Hs0 : 0 <= shots actions).
      { clear. induction actions as [|[] ? ?]; cbn [shots]; lia. }
      assert (Hkc : 0 <= shots actions * c) by lia.
      pose proof (Z.div_mod (tv_nsec t + c) NSEC_PER_SEC ltac:(discriminate)) as Hd.
      pose proof (Z.mod_pos_bound (tv_nsec t + c) NSEC_PER_SEC ltac:(reflexivity)) as Hm.
      assert (Hq0 : 0 <= (tv_nsec t + c) / NSEC_PER_SEC).
      { apply Z.div_pos; [lia | reflexivity]. }
      assert (Hsplit : tv_nsec t + (1 + shots actions) * c
                       = (tv_nsec t + c) mod NSEC_PER_SEC + shots actions * c
                         + (tv_nsec t + c) / NSEC_PER_SEC * NSEC_PER_SEC) by lia.
      assert (Hdiv : (tv_nsec t + (1 + shots actions) * c) / NSEC_PER_SEC
                     = ((tv_nsec t + c) mod NSEC_PER_SEC + shots actions * c) / NSEC_PER_SEC
                       + (tv_nsec t + c) / NSEC_PER_SEC).
      { rewrite Hsplit. apply Z.div_add. discriminate. }
      assert (Hq1 : 0 <= ((tv_nsec t + c) mod NSEC_PER_SEC + shots actions * c) / NSEC_PER_SEC).
      { apply Z.div_pos; [lia | reflexivity]. }
      assert (Hspec : updateInterval t c =
                {| tv_sec := tv_sec t + (tv_nsec t + c) / NSEC_PER_SEC;
                   tv_nsec := (tv_nsec t + c) mod NSEC_PER_SEC |}).
      { apply updateInterval_spec; unfold NSEC_PER_SEC in *; lia. }
      specialize (IH (READ_TASK_next_shot m) m' Hrun).
      unfold READ_TASK_next_shot in IH.
      cbn [read_task_timer read_cycle_time set_read_task_timer] in IH.
      fold t c in IH. rewrite Hspec in IH. cbn [tv_sec tv_nsec] in IH.
      destruct IH as (Ht & Hn' & Hc'); try lia.
      split; [|split; assumption].
      rewrite Ht. unfold total_nsec. cbn [tv_sec tv_nsec]. lia.
    + unfold READ_TASK_critical in Hrun.
      destruct (full (ssid_queue m)); [discriminate|].
      destruct (readSSID_timer clock_monotonic popen_result m) as [Et Ec].
      specialize (IH _ m' Hrun). rewrite Et, Ec in IH. now apply IH.
    + unfold STORE_TASK_critical in Hrun.
      destruct (empty (ssid_queue m)); [discriminate|].
      destruct (storeSSIDs_timer clock_monotonic m) as [Et Ec].
      specialize (IH _ m' Hrun). rewrite Et, Ec in IH. now apply IH.
Qed.

(** X3: in every run of the two tasks the deadline of the read task ends
    at its start plus the cycle time for each next shot, however many scans
    and aggregations come in between and whatever they do: the cadence
    does not drift. *)
Theorem read_task_deadline_does_not_drift actions m m' :
  run_tasks clock_monotonic actions m = Some m' ->
  0 <= tv_nsec (read_task_timer m) < NSEC_PER_SEC ->
  0 <= read_cycle_time m -> read_cycle_time m <= 2 ^ 64 - NSEC_PER_SEC ->
  LONG_MIN <= tv_sec (read_task_timer m) ->
  tv_sec (read_task_timer m)
    + (tv_nsec (read_task_timer m) + shots actions * read_cycle_time m) / NSEC_PER_SEC
    <= LONG_MAX ->
  total_nsec (read_task_timer m')
    = total_nsec (read_task_timer m) + shots actions * read_cycle_time m /\
  0 <= tv_nsec (read_task_timer m') < NSEC_PER_SEC.
Proof.
  intros Hrun Hn Hc0 Hc Hlo Hhi.
  destruct (run_tasks_timer actions m m' Hrun Hn Hc0 Hc Hlo Hhi) as (H1 & H2 & _).
  now split.
Qed.

End TimerRuns.

(** ** The sign of a timestamp *)

Section TimestampSign.

Variables prec emax : Z.

Lemma SFnonneg_cases (x : spec_float) :
  SFnonneg x ->
  (exists s, x = S754_zero s) \/ x = S754_infinity false \/
  (exists m e, x = S754_finite false m e).
Proof.
  unfold SFnonneg. destruct x as [s | [|] | | [|] m e]; try discriminate; eauto.
Qed.

Lemma SFadd_nonneg (x y : spec_float) :
  SFnonneg x -> SFnonneg y -> SFnonneg (SFadd prec emax x y).
Proof.
  intros Hx Hy.
  destruct (SFnonneg_cases x Hx) as [[sx ->] | [-> | (mx & ex & ->)]];
    destruct (SFnonneg_cases y Hy) as [[sy ->] | [-> | (my & ey & ->)]];
    try reflexivity.
  - destruct sx, sy; reflexivity.
  - cbn [SFadd cond_Zopp]. apply binary_normalize_nonneg. lia.
Qed.

Lemma SFdiv_nonneg (x : spec_float) (my : positive) (ey : Z) :
  SFnonneg x -> SFnonneg (SFdiv prec emax x (S754_finite false my ey)).
Proof.
  intros Hx.
  destruct (SFnonneg_cases x Hx) as [[sx ->] | [-> | (mx & ex & ->)]];
    try reflexivity.
  cbn [SFdiv xorb]. unfold SFdiv_core_binary.
  set (s := ex - ey - _).
  set (m' := match s with Z0 => Zpos mx | Zpos _ => Z.shiftl (Zpos mx) s | Zneg _ => 0 end).
  assert (Hm' : 0 <= m').
  { unfold m'. destruct s; try lia. apply Z.shiftl_nonneg. lia. }
  pose proof (Z_div_mod m' (Zpos my) ltac:(lia)) as Hdm.
  destruct (Z.div_eucl m' (Zpos my)) as [q r]. destruct Hdm as [Hq Hr].
  apply binary_round_aux_nonneg. nia.
Qed.

End TimestampSign.

(** X4: the timestamp of a clock value whose fields are not negative is
    neither negative nor a NaN. *)
Theorem timestamp_of_nonneg (current_t : timespec) :
  0 <= tv_sec current_t -> 0 <= tv_nsec current_t ->
  F32.leb F32.zero (timestamp_of current_t) = true.
Proof.
  intros Hs Hn. unfold timestamp_of, F32.leb, F32.add, F32.div.
  change (F32.of_Z 1000000000) with (S754_finite false 15625000 6).
  apply SFadd_nonneg.
  - apply binary_normalize_nonneg, Hs.
  - apply SFdiv_nonneg. apply binary_normalize_nonneg, Hn.
Qed.

Lemma timestamp_of_nonneg_witness :
  F32.leb F32.zero (timestamp_of {| tv_sec := 1000; tv_nsec := 500000000 |}) = true.
Proof. apply timestamp_of_nonneg; cbn; lia. Defined.

(** ** The flags of the queue and its use without the guards *)

Section QueueEdges.

#[local] Ltac zmod32 := unfold BUFFER_SIZE, to_u32, to_unsigned in *;
  Z.div_mod_to_equations; lia.

(** X5: in every run of guarded operations from the initialised queue,
    [empty] is set exactly when every enqueued pair has been dequeued and
    [full] exactly when 32 enqueued pairs have not been dequeued; the two
    flags are never set together. *)
Theorem queue_flags_count ops q0 out q' :
  length (ssid_buffer q0) = Z.to_nat BUFFER_SIZE ->
  length (timestamp_buffer q0) = Z.to_nat BUFFER_SIZE ->
  run_queue ops (init_queue q0) = Some (out, q') ->
  (empty q' = true <-> length (enqueued ops) = length out) /\
  (full q' = true <-> length (enqueued ops) = (length out + Z.to_nat BUFFER_SIZE)%nat) /\
  ~ (empty q' = true /\ full q' = true).
Proof.
  intros Hs Ht Hrun.
  destruct (init_queue_wf q0 Hs Ht) as [Hwf Hnil].
  destruct (run_queue_contents ops _ _ _ Hwf Hrun) as [Hwf' Heq].
  rewrite Hnil in Heq. cbn [app] in Heq.
  assert (Hlen : length (enqueued ops) = (length out + Z.to_nat (queue_count q'))%nat).
  { now rewrite Heq, length_app, queue_contents_length. }
  pose proof (queue_count_range _ Hwf') as Hr.
  pose proof (queue_count_empty _ Hwf') as He.
  pose proof (queue_count_full _ Hwf') as Hf.
  unfold BUFFER_SIZE in *.
  split; [|split].
  - rewrite He. lia.
  - rewrite Hf. lia.
  - intros [H1 H2]. apply He in H1. apply Hf in H2. lia.
Qed.

Lemma queue_flags_count_witness :
  let ops := [Enqueue "NetA" (F32.of_Z 10); Dequeue] in
  exists out q', run_queue ops (init_queue initial_queue) = Some (out, q') /\
                 (empty q' = true <-> length (enqueued ops) = length out).
Proof.
  intros ops.
  destruct (run_queue ops (init_queue initial_queue)) as [[out q']|] eqn:Hrun.
  - exists out, q'. split; [reflexivity|].
    exact (proj1 (queue_flags_count ops initial_queue out q' eq_refl eq_refl Hrun)).
  - vm_compute in Hrun. discriminate Hrun.
Defined.

(** X6: [queueAdd] on a full queue, which the tasks never do, stores the
    new pair over the oldest waiting pair and leaves a queue whose indices
    no longer agree with its flags. *)
Theorem queueAdd_full_overwrites ssid timestamp q :
  queue_wf q -> full q = true ->
  let q' := queueAdd ssid timestamp q in
  queue_slot q' 0 = (ssid, timestamp) /\
  head q' = head q /\ tail q' <> head q' /\ full q' = true /\
  ~ queue_wf q'.
Proof.
  intros [Hh Ht Hs Hts Hf He] Hfull. specialize (Hf Hfull). cbn zeta.
  assert (Ht1 : to_u32 (tail q + 1) = tail q + 1) by zmod32.
  assert (Htail : tail (queueAdd ssid timestamp q) <> head q).
  { unfold queueAdd. cbn [tail]. rewrite Ht1.
    destruct (tail q + 1 =? BUFFER_SIZE) eqn:E;
      [apply Z.eqb_eq in E | apply Z.eqb_neq in E]; zmod32. }
  assert (Hfull' : full (queueAdd ssid timestamp q) = true).
  { unfold queueAdd. cbn [full]. rewrite Hfull. now destruct (_ =? head q). }
  repeat split; try assumption.
  - unfold queue_slot, queueAdd. cbn [head ssid_buffer timestamp_buffer].
    replace (Z.to_nat ((head q + Z.of_nat 0) mod BUFFER_SIZE)) with (Z.to_nat (tail q))
      by zmod32.
    rewrite !list_lookup_total_insert_eq; [reflexivity | |]; zmod32.
  - intros Hwf'. apply Htail. symmetry. now apply (wf_full _ Hwf').
Qed.

Lemma queueAdd_full_overwrites_witness :
  let q := ssid_queue (readSSID example_clock (Some burst_output) started) in
  queue_slot (queueAdd "NetZ" (F32.of_Z 7) q) 0 = ("NetZ"%string, F32.of_Z 7).
Proof.
  intros q.
  assert (Hwf : queue_wf q).
  { apply (readSSID_lines_contents example_clock (file_lines burst_output) started).
    apply (init_queue_wf initial_queue); reflexivity. }
  assert (Hfull : full q = true) by (vm_compute; reflexivity).
  exact (proj1 (queueAdd_full_overwrites "NetZ" (F32.of_Z 7) q Hwf Hfull)).
Defined.

(** X7: [queuePop] on an empty queue, which the tasks never do, returns
    the pair left in the head slot by an earlier use and leaves a queue that
    claims 31 waiting pairs while [empty] is still set. *)
Theorem queuePop_empty_stale q :
  queue_wf q -> empty q = true ->
  (queuePop q).1 = queue_slot q 0 /\
  empty (queuePop q).2 = true /\
  queue_count (queuePop q).2 = BUFFER_SIZE - 1 /\
  ~ queue_wf (queuePop q).2.
Proof.
  intros [Hh Ht Hs Hts Hf He] Hempty. destruct (proj1 He Hempty) as [Hht Hnf].
  assert (Hh1 : to_u32 (head q + 1) = head q + 1) by zmod32.
  assert (Hhead : head (queuePop q).2 <> tail q).
  { unfold queuePop. cbn [snd head]. rewrite Hh1.
    destruct (head q + 1 =? BUFFER_SIZE) eqn:E;
      [apply Z.eqb_eq in E | apply Z.eqb_neq in E]; zmod32. }
  assert (Hempty' : empty (queuePop q).2 = true).
  { unfold queuePop. cbn [snd empty]. rewrite Hempty. now destruct (_ =? tail q). }
  repeat split; try assumption.
  - unfold queuePop, queue_slot. cbn [fst].
    replace ((head q + Z.of_nat 0) mod BUFFER_SIZE) with (head q) by zmod32.
    reflexivity.
  - unfold queue_count, queuePop. cbn [snd full head tail]. rewrite Hh1.
    destruct (head q + 1 =? BUFFER_SIZE) eqn:E;
      [apply Z.eqb_eq in E | apply Z.eqb_neq in E]; zmod32.
  - intros Hwf'. apply Hhead.
    exact (proj1 (proj1 (wf_empty _ Hwf') Hempty')).
Qed.

Lemma queuePop_empty_stale_witness :
  (queuePop (ssid_queue started)).1 = queue_slot (ssid_queue started) 0 /\
  queue_count (queuePop (ssid_queue started)).2 = BUFFER_SIZE - 1.
Proof.
  destruct (queuePop_empty_stale (ssid_queue started) started_queue_wf eq_refl)
    as (H1 & _ & H2 & _).
  exact (conj H1 H2).
Defined.

End QueueEdges.

(** ** The buffers [fgets] fills *)

Section ScannerLines.

Lemma file_lines_eq stream :
  file_lines stream =
    match fgets (Z.to_nat (SSID_SIZE - 1)) stream with
    | Some (ssid, rest) => ssid :: file_lines rest
    | None => []
    end.
Proof.
  rewrite file_lines_equation_1.
  destruct (inspect (fgets (Z.to_nat (SSID_SIZE - 1)) stream)) as [[[ssid rest]|] H];
    cbn [file_lines_unfold_clause_1]; rewrite H; reflexivity.
Qed.

Lemma append_cons c a b :
  String.append (String c a) b = String c (String.append a b).
Proof. reflexivity. Qed.

Lemma fgets_take_spec (room : nat) : forall stream raw rest,
  fgets_take room stream = (raw, rest) ->
  String.append raw rest = stream /\
  (String.length raw <= room)%nat /\
  (room <> O -> stream <> EmptyString -> raw <> EmptyString).
Proof.
  induction room as [|room IH]; intros [|c s] raw rest; cbn; intros H.
  1-3: injection H as <- <-; cbn; repeat split; try lia; congruence.
  destruct (Ascii.eqb c newline).
  - injection H as <- <-. cbn. repeat split; try lia; congruence.
  - destruct (fgets_take room s) as [l r] eqn:E. injection H as <- <-.
    destruct (IH _ _ _ E) as (Ha & Hl & _).
    rewrite append_cons, Ha. cbn [String.length]. repeat split; try lia; congruence.
Qed.

Lemma c_str_length buf : (String.length (c_str buf) <= String.length buf)%nat.
Proof.
  induction buf as [|c buf IH]; cbn; [lia|].
  destruct (Ascii.eqb c NUL); cbn; lia.
Qed.

Lemma c_str_nul_free buf : nul_free buf = true -> c_str buf = buf.
Proof.
  induction buf as [|c buf IH]; cbn; [reflexivity|].
  intros H. apply andb_true_iff in H as [Hc Hb].
  destruct (Ascii.eqb c NUL); [discriminate|]. now rewrite IH.
Qed.

Lemma nul_free_append a b :
  nul_free (String.append a b) = nul_free a && nul_free b.
Proof.
  induction a as [|c a IH]; [reflexivity|].
  rewrite append_cons. cbn [nul_free]. now rewrite IH, andb_assoc.
Qed.

(** What a successful [fgets] of [readSSID] took from the stream. *)
Lemma fgets_some stream ssid rest :
  fgets (Z.to_nat (SSID_SIZE - 1)) stream = Some (ssid, rest) ->
  exists raw, ssid = c_str raw /\ String.append raw rest = stream /\
              raw <> EmptyString /\ (String.length raw <= 62)%nat.
Proof.
  unfold fgets. destruct stream as [|c s]; [discriminate|].
  destruct (fgets_take _ (String c s)) as [raw r] eqn:E. intros H.
  injection H as <- <-. exists raw.
  destruct (fgets_take_spec _ _ _ _ E) as (Ha & Hl & Hne).
  repeat split; try assumption.
  apply Hne; [discriminate | congruence].
Qed.

Lemma append_length a b :
  String.length (String.append a b) = (String.length a + String.length b)%nat.
Proof.
  induction a as [|c a IH]; [reflexivity|].
  rewrite append_cons. cbn [String.length]. now rewrite IH.
Qed.

(** Induction on the stream, one [fgets] at a time. *)
Lemma file_lines_induction (P : string -> list string -> Prop) :
  P EmptyString [] ->
  (forall stream ssid rest,
     fgets (Z.to_nat (SSID_SIZE - 1)) stream = Some (ssid, rest) ->
     P rest (file_lines rest) -> P stream (ssid :: file_lines rest)) ->
  forall stream, P stream (file_lines stream).
Proof.
  intros Hnil Hcons stream.
  remember (String.length stream) as n eqn:Hn.
  revert stream Hn. induction n as [n IH] using lt_wf_ind. intros stream Hn.
  rewrite file_lines_eq.
  destruct (fgets (Z.to_nat (SSID_SIZE - 1)) stream) as [[ssid rest]|] eqn:Hget.
  - apply Hcons; [exact Hget|].
    destruct (fgets_some _ _ _ Hget) as (raw & _ & Ha & Hne & _).
    apply (IH (String.length rest)); [|reflexivity].
    rewrite Hn, <- Ha, append_length. destruct raw; [congruence | cbn; lia].
  - unfold fgets in Hget. destruct stream; [exact Hnil|].
    destruct (fgets_take _ _); discriminate.
Qed.

(** X8: every buffer the scan loop sees holds at most 62 characters, so
    that with its terminator it fits the 64 bytes of a queue slot and of a
    history entry. *)
Theorem file_lines_fit_buffer stream :
  Forall (fun ssid => Z.of_nat (String.length ssid) + 1 < SSID_SIZE) (file_lines stream).
Proof.
  apply (file_lines_induction (fun _ lines =>
           Forall (fun ssid => Z.of_nat (String.length ssid) + 1 < SSID_SIZE) lines)).
  - constructor.
  - intros s ssid rest Hget IH. constructor; [|exact IH].
    destruct (fgets_some _ _ _ Hget) as (raw & -> & _ & _ & Hl).
    pose proof (c_str_length raw). unfold SSID_SIZE. lia.
Qed.

(** X9: when the output of the scanner holds no NUL character, the
    buffers put one after the other are that output: the loop loses and
    repeats nothing. *)
Theorem file_lines_join stream :
  nul_free stream = true -> join_lines (file_lines stream) = stream.
Proof.
  apply (file_lines_induction (fun s lines =>
           nul_free s = true -> join_lines lines = s)).
  - reflexivity.
  - intros s ssid rest Hget IH Hnul.
    destruct (fgets_some _ _ _ Hget) as (raw & -> & Ha & _ & _).
    rewrite <- Ha in Hnul. rewrite nul_free_append in Hnul.
    apply andb_true_iff in Hnul as [Hraw Hrest].
    cbn [join_lines fold_right]. fold (join_lines (file_lines rest)).
    now rewrite IH, c_str_nul_free.
Qed.

Lemma file_lines_join_witness : join_lines (file_lines scan_output) = scan_output.
Proof. apply file_lines_join. reflexivity. Defined.

Lemma fgets_take_line (room : nat) : forall ssid rest,
  newline_free ssid = true -> (String.length ssid < room)%nat ->
  fgets_take room (String.append ssid (String newline rest))
    = (String.append ssid end_of_line, rest).
Proof.
  induction room as [|room IH]; intros [|c s] rest Hfree Hlen;
    cbn [String.length newline_free] in *; try lia.
  - change (String.append EmptyString (String newline rest)) with (String newline rest).
    cbn [fgets_take]. now rewrite Ascii.eqb_refl.
  - apply andb_true_iff in Hfree as [Hc Hs].
    rewrite !append_cons. cbn [fgets_take].
    destruct (Ascii.eqb c newline); [discriminate|].
    now rewrite IH by (assumption || lia).
Qed.

Lemma fgets_take_full (room : nat) : forall chunk rest,
  newline_free chunk = true -> String.length chunk = room ->
  fgets_take room (String.append chunk rest) = (chunk, rest).
Proof.
  induction room as [|room IH]; intros [|c s] rest Hfree Hlen;
    cbn [String.length newline_free] in *; try lia.
  - reflexivity.
  - apply andb_true_iff in Hfree as [Hc Hs].
    rewrite append_cons. cbn [fgets_take].
    destruct (Ascii.eqb c newline); [discriminate|].
    now rewrite IH by (assumption || lia).
Qed.

(** X10: a line of the scanner of at most 61 characters, without NUL,
    comes out as one buffer, its newline included, followed by the buffers
    of what comes after it. *)
Theorem file_lines_line ssid rest :
  newline_free ssid = true -> nul_free ssid = true ->
  (String.length ssid <= 61)%nat ->
  file_lines (String.append ssid (String newline rest))
    = String.append ssid end_of_line :: file_lines rest.
Proof.
  intros Hfree Hnul Hlen. rewrite file_lines_eq. unfold fgets.
  destruct (String.append ssid (String newline rest)) as [|c s] eqn:E.
  { destruct ssid; discriminate. }
  rewrite <- E.
  change (Z.to_nat (SSID_SIZE - 1) - 1)%nat with 62%nat.
  rewrite fgets_take_line by (assumption || lia).
  rewrite c_str_nul_free; [reflexivity|].
  rewrite nul_free_append, Hnul. reflexivity.
Qed.

Lemma file_lines_line_witness :
  file_lines (String.append "NetA" (String newline "NetB"))
    = String.append "NetA" end_of_line :: file_lines "NetB".
Proof. apply file_lines_line; [reflexivity | reflexivity | cbn; lia]. Defined.

(** X11: a line longer than 62 characters is not cut short: its first 62
    characters fill one buffer and the scan goes on with the rest of the
    line as if it were a further line. *)
Theorem file_lines_long_line chunk rest :
  newline_free chunk = true -> nul_free chunk = true ->
  String.length chunk = 62%nat ->
  file_lines (String.append chunk rest) = chunk :: file_lines rest.
Proof.
  intros Hfree Hnul Hlen. rewrite file_lines_eq. unfold fgets.
  destruct (String.append chunk rest) as [|c s] eqn:E.
  { destruct chunk; discriminate. }
  rewrite <- E.
  change (Z.to_nat (SSID_SIZE - 1) - 1)%nat with 62%nat.
  rewrite fgets_take_full by assumption.
  now rewrite c_str_nul_free.
Qed.

End ScannerLines.

(** ** The lines of the scanner in the queue *)

Section ScannerLinesQueue.

Variable clock_monotonic : nat -> timespec.

Lemma append_assoc a b c :
  String.append (String.append a b) c = String.append a (String.append b c).
Proof.
  induction a as [|x a IH]; [reflexivity|].
  rewrite !append_cons. now rewrite IH.
Qed.

Lemma fgets_nonempty size stream :
  stream <> EmptyString ->
  fgets size stream =
    let '(raw, rest) := fgets_take (size - 1) stream in Some (c_str raw, rest).
Proof. destruct stream; [congruence | reflexivity]. Qed.

Lemma append_nonempty a b : a <> EmptyString -> String.append a b <> EmptyString.
Proof. destruct a; [congruence | discriminate]. Qed.

Lemma append_end_of_line_nonempty s : String.append s end_of_line <> EmptyString.
Proof. destruct s; discriminate. Qed.

(** A call of [fgets] on whole lines takes the same characters whatever
    follows these lines, and leaves whole lines. *)
Lemma fgets_take_whole (room : nat) : forall s rest raw r,
  fgets_take room (String.append s end_of_line) = (raw, r) ->
  fgets_take room (String.append (String.append s end_of_line) rest)
    = (raw, String.append r rest) /\
  whole_lines r.
Proof.
  induction room as [|room IH]; intros s rest raw r H.
  - cbn [fgets_take] in *. injection H as <- <-. split; [reflexivity|].
    right. now exists s.
  - destruct s as [|c s].
    + change (String.append EmptyString end_of_line) with (String newline EmptyString) in *.
      rewrite append_cons. cbn [fgets_take] in *. rewrite Ascii.eqb_refl in *.
      injection H as <- <-. split; [reflexivity | now left].
    + rewrite !append_cons in *. cbn [fgets_take] in *.
      destruct (Ascii.eqb c newline).
      * injection H as <- <-. split; [reflexivity|]. right. now exists s.
      * destruct (fgets_take room (String.append s end_of_line)) as [l r'] eqn:E.
        injection H as <- <-.
        destruct (IH s rest l r' E) as [-> Hr]. now split.
Qed.

(** The buffers of whole lines followed by more output are the buffers
    of these lines followed by the buffers of the rest. *)
Lemma file_lines_app (n : nat) : forall before rest,
  (String.length before <= n)%nat -> whole_lines before ->
  file_lines (String.append before rest) = file_lines before ++ file_lines rest.
Proof.
  induction n as [|n IH]; intros before rest Hn [-> | [s ->]].
  - now rewrite (file_lines_eq EmptyString).
  - rewrite append_length in Hn. cbn in Hn. lia.
  - now rewrite (file_lines_eq EmptyString).
  - change (String newline EmptyString) with end_of_line in *.
    rewrite (file_lines_eq (String.append (String.append s _) rest)).
    rewrite (file_lines_eq (String.append s _)).
    rewrite (fgets_nonempty _ (String.append (String.append s end_of_line) rest))
      by (apply append_nonempty, append_end_of_line_nonempty).
    rewrite (fgets_nonempty _ (String.append s end_of_line))
      by apply append_end_of_line_nonempty.
    destruct (fgets_take (Z.to_nat (SSID_SIZE - 1) - 1) (String.append s end_of_line))
      as [raw r] eqn:E.
    destruct (fgets_take_whole _ s rest raw r E) as [-> Hr].
    destruct (fgets_take_spec _ _ _ _ E) as (Ha & _ & Hne).
    cbn [app]. f_equal. apply IH; [|exact Hr].
    rewrite <- Ha, append_length in Hn.
    destruct raw; [exfalso; apply Hne; [discriminate | apply append_end_of_line_nonempty |
                                        reflexivity]|].
    cbn in Hn. lia.
Qed.

(** A short line is one buffer. *)
Lemma file_lines_short ssid rest :
  short_line ssid ->
  file_lines (String.append (line ssid) rest) = line ssid :: file_lines rest.
Proof.
  intros (Hfree & Hnul & Hlen). unfold line. rewrite append_assoc.
  change (String.append (String newline EmptyString) rest) with (String newline rest).
  rewrite file_lines_eq, fgets_nonempty by (destruct ssid; discriminate).
  change (Z.to_nat (SSID_SIZE - 1) - 1)%nat with 62%nat.
  rewrite fgets_take_line by (assumption || lia).
  rewrite c_str_nul_free; [reflexivity|].
  rewrite nul_free_append, Hnul. reflexivity.
Qed.

Lemma file_lines_short_lines ssids :
  Forall short_line ssids -> file_lines (join_lines (map line ssids)) = map line ssids.
Proof.
  induction 1 as [|ssid ssids Hs _ IH]; [apply file_lines_eq|].
  cbn [map join_lines fold_right]. fold (join_lines (map line ssids)).
  now rewrite file_lines_short, IH.
Qed.

(** The calls of [queueAdd] of a scan are made on a queue that is not
    full, and they make the queue the scan leaves. *)
Lemma readSSID_queue_ops_run lines : forall m,
  run_queue (readSSID_queue_ops clock_monotonic lines m) (ssid_queue m)
    = Some ([], ssid_queue (fold_left (readSSID_line clock_monotonic) lines m)).
Proof.
  induction lines as [|ssid lines IH]; intros m; [reflexivity|].
  cbn [readSSID_queue_ops fold_left]. specialize (IH (readSSID_line clock_monotonic m ssid)).
  destruct (full (ssid_queue m)) eqn:Hf; cbn [negb andb].
  - rewrite readSSID_line_skip in * by now right. exact IH.
  - destruct (strncmp_eq ssid "x00" 3) eqn:Hs; cbn [negb].
    + rewrite readSSID_line_skip in * by now left. exact IH.
    + cbn [run_queue]. rewrite Hf.
      rewrite readSSID_line_add in IH |- * by assumption. exact IH.
Qed.

Lemma run_queue_app ops1 : forall ops2 q out1 q1,
  run_queue ops1 q = Some (out1, q1) ->
  run_queue (ops1 ++ ops2) q =
    match run_queue ops2 q1 with
    | Some (out2, q2) => Some (out1 ++ out2, q2)
    | None => None
    end.
Proof.
  induction ops1 as [|[ssid timestamp|] ops1 IH]; intros ops2 q out1 q1 H;
    cbn [run_queue app] in *.
  - injection H as <- <-. destruct (run_queue ops2 q) as [[out2 q2]|]; reflexivity.
  - destruct (full q); [discriminate|]. now apply IH.
  - destruct (empty q); [discriminate|].
    destruct (queuePop q) as [[ssid timestamp] q'].
    destruct (run_queue ops1 q') as [[out q'']|] eqn:E; [|discriminate].
    injection H as <- <-. rewrite (IH ops2 q' out q'' E).
    destruct (run_queue ops2 q'') as [[out2 q2]|]; reflexivity.
Qed.

(** Along a run the two tasks use the queue as [run_queue] allows:
    [queueAdd] is called on a queue that is not full and [queuePop] on a
    queue that is not empty. *)
Lemma task_queue_ops_run actions : forall m m',
  run_tasks clock_monotonic actions m = Some m' ->
  exists out,
    run_queue (task_queue_ops clock_monotonic actions m) (ssid_queue m)
      = Some (out, ssid_queue m').
Proof.
  induction actions as [|[|popen_result|] actions IH]; intros m m' H;
    cbn [run_tasks task_queue_ops] in *.
  - injection H as <-. now exists [].
  - apply (IH _ _ H).
  - destruct (READ_TASK_critical clock_monotonic popen_result m) as [m1|] eqn:E;
      [|discriminate].
    destruct (IH _ _ H) as [out Hout].
    unfold READ_TASK_critical in E.
    destruct (full (ssid_queue m)); [discriminate|]. injection E as <-.
    exists out. destruct popen_result as [stream|]; cbn [readSSID app] in *.
    + rewrite (run_queue_app _ _ _ _ _ (readSSID_queue_ops_run (file_lines stream) m)).
      now rewrite Hout.
    + exact Hout.
  - destruct (STORE_TASK_critical clock_monotonic m) as [m1|] eqn:E; [|discriminate].
    destruct (IH _ _ H) as [out Hout].
    unfold STORE_TASK_critical in E.
    destruct (empty (ssid_queue m)) eqn:He; [discriminate|]. injection E as <-.
    rewrite storeSSIDs_queue in Hout. cbn [run_queue]. rewrite He.
    destruct (queuePop (ssid_queue m)) as [[ssid timestamp] q']. cbn [snd] in Hout.
    rewrite Hout. now eexists.
Qed.

(** C4, as amended: the pairs passed to [queueAdd] and not yet returned
    by [queuePop] never exceed the capacity of 32. Along every run of the
    two tasks each [queueAdd] is called on a queue that is not full and
    each [queuePop] on a queue that is not empty, the pairs waiting first
    followed by the pairs enqueued are the pairs dequeued followed by the
    pairs left waiting, and the enqueues exceed the dequeues by at most the
    free slots; an enqueue on a queue that is not full leaves the pairs
    waiting in place. When one scan receives lines of at most 61
    characters, it appends the first valid lines, as many as there are free
    slots: when the valid lines outnumber the free slots, exactly
    (capacity - occupied) of them are enqueued, the queue ends full and
    the other lines are dropped. For any output of the scanner the same
    holds of the buffers [fgets] fills, of which a longer line makes
    several. *)
Theorem queue_capacity m :
  queue_wf (ssid_queue m) ->
  (forall actions m',
     run_tasks clock_monotonic actions m = Some m' ->
     let ops := task_queue_ops clock_monotonic actions m in
     exists out,
       run_queue ops (ssid_queue m) = Some (out, ssid_queue m') /\
       queue_wf (ssid_queue m') /\
       queue_contents (ssid_queue m) ++ enqueued ops
         = out ++ queue_contents (ssid_queue m') /\
       (length (queue_contents (ssid_queue m)) + length (enqueued ops)
          <= length out + Z.to_nat BUFFER_SIZE)%nat) /\
  (forall ssid timestamp,
     full (ssid_queue m) = false ->
     queue_contents (queueAdd ssid timestamp (ssid_queue m))
       = queue_contents (ssid_queue m) ++ [(ssid, timestamp)]) /\
  (forall ssids,
     Forall short_line ssids ->
     let q := ssid_queue m in
     let q' := ssid_queue (readSSID clock_monotonic (Some (join_lines (map line ssids))) m) in
     let valid := valid_lines (map line ssids) in
     queue_contents q' =
       queue_contents q
       ++ stamped clock_monotonic (clock_reads m) (take (queue_free q) valid) /\
     ((queue_free q < length valid)%nat ->
      queue_free q = (Z.to_nat BUFFER_SIZE - length (queue_contents q))%nat /\
      length (queue_contents q') = (length (queue_contents q) + queue_free q)%nat /\
      length (queue_contents q') = Z.to_nat BUFFER_SIZE /\
      full q' = true)) /\
  (forall stream,
     let q := ssid_queue m in
     let q' := ssid_queue (readSSID clock_monotonic (Some stream) m) in
     let valid := valid_lines (file_lines stream) in
     queue_contents q' =
       queue_contents q
       ++ stamped clock_monotonic (clock_reads m) (take (queue_free q) valid) /\
     ((queue_free q < length valid)%nat ->
      queue_free q = (Z.to_nat BUFFER_SIZE - length (queue_contents q))%nat /\
      length (queue_contents q') = (length (queue_contents q) + queue_free q)%nat /\
      length (queue_contents q') = Z.to_nat BUFFER_SIZE /\
      full q' = true)) /\
  (forall ops q0 out q',
     length (ssid_buffer q0) = Z.to_nat BUFFER_SIZE ->
     length (timestamp_buffer q0) = Z.to_nat BUFFER_SIZE ->
     run_queue ops (init_queue q0) = Some (out, q') ->
     (length (enqueued ops) <= length out + Z.to_nat BUFFER_SIZE)%nat).
Proof.
  intros Hwf.
  assert (Hscan : forall stream,
     let q := ssid_queue m in
     let q' := ssid_queue (readSSID clock_monotonic (Some stream) m) in
     let valid := valid_lines (file_lines stream) in
     queue_contents q' =
       queue_contents q
       ++ stamped clock_monotonic (clock_reads m) (take (queue_free q) valid) /\
     ((queue_free q < length valid)%nat ->
      queue_free q = (Z.to_nat BUFFER_SIZE - length (queue_contents q))%nat /\
      length (queue_contents q') = (length (queue_contents q) + queue_free q)%nat /\
      length (queue_contents q') = Z.to_nat BUFFER_SIZE /\
      full q' = true)).
  { intros stream. cbn zeta.
    destruct (readSSID_lines_contents clock_monotonic (file_lines stream) m Hwf)
      as (Hwf' & Hc & _).
    cbn [readSSID]. split; [exact Hc|]. intros Hburst.
    pose proof (queue_count_range _ Hwf) as Hr.
    assert (Hlen : length (queue_contents
                     (ssid_queue (fold_left (readSSID_line clock_monotonic)
                                    (file_lines stream) m)))
                   = (length (queue_contents (ssid_queue m)) + queue_free (ssid_queue m))%nat).
    { rewrite Hc, length_app. f_equal. unfold stamped.
      rewrite length_imap, length_take. lia. }
    pose proof (queue_count_range _ Hwf') as Hr'.
    rewrite Hlen. rewrite !queue_contents_length in *.
    unfold queue_free, BUFFER_SIZE in *.
    repeat split; try lia.
    apply (queue_count_full _ Hwf'). unfold BUFFER_SIZE. lia. }
  split; [|split; [|split; [|split]]].
  - intros actions m' Hrun. cbn zeta.
    destruct (task_queue_ops_run actions m m' Hrun) as [out Hout].
    destruct (run_queue_contents _ _ _ _ Hwf Hout) as [Hwf' Heq].
    exists out. split; [exact Hout|]. split; [exact Hwf'|]. split; [exact Heq|].
    rewrite <- length_app, Heq, length_app, (queue_contents_length (ssid_queue m')).
    pose proof (queue_count_range _ Hwf'). lia.
  - intros ssid timestamp Hfull. now apply queueAdd_contents.
  - intros ssids Hshort. cbn zeta.
    pose proof (Hscan (join_lines (map line ssids))) as H. cbn zeta in H.
    rewrite (file_lines_short_lines ssids Hshort) in H. exact H.
  - exact Hscan.
  - intros ops q0 out q' Hs Ht Hrun.
    destruct (init_queue_wf q0 Hs Ht) as [Hwf0 Hnil].
    destruct (run_queue_contents ops _ _ _ Hwf0 Hrun) as [Hwf' Heq].
    rewrite Hnil in Heq. cbn [app] in Heq. rewrite Heq, length_app.
    rewrite queue_contents_length. pose proof (queue_count_range _ Hwf'). lia.
Qed.

(** C8, as amended: for every line of at most 61 characters the scanner
    returns during one scan, with the state [before] the line reached
    after the output that precedes it: a line that starts with the
    sentinel leaves the state as it is; any other line is enqueued, with
    its newline and with the reading of the clock taken at that moment,
    when the queue is not full, and leaves the state as it is when the
    queue is full; the scan goes on with the output that follows the
    line. For any output of the scanner the same holds of each buffer
    [fgets] fills, of which a longer line makes several. *)
Theorem readSSID_each_line m :
  queue_wf (ssid_queue m) ->
  (forall preceding ssid following,
     whole_lines preceding -> short_line ssid ->
     let stream := String.append preceding (String.append (line ssid) following) in
     let before := fold_left (readSSID_line clock_monotonic) (file_lines preceding) m in
     let after := readSSID_line clock_monotonic before (line ssid) in
     readSSID clock_monotonic (Some stream) m
       = fold_left (readSSID_line clock_monotonic) (file_lines following) after /\
     (is_sentinel (line ssid) = true -> after = before) /\
     (is_sentinel (line ssid) = false ->
        (full (ssid_queue before) = false ->
           queue_contents (ssid_queue after) =
             queue_contents (ssid_queue before)
             ++ [(line ssid, timestamp_of (clock_monotonic (clock_reads before)))]) /\
        (full (ssid_queue before) = true -> after = before))) /\
  (forall stream pre buffer post,
     file_lines stream = pre ++ buffer :: post ->
     let before := fold_left (readSSID_line clock_monotonic) pre m in
     let after := readSSID_line clock_monotonic before buffer in
     readSSID clock_monotonic (Some stream) m
       = fold_left (readSSID_line clock_monotonic) post after /\
     (is_sentinel buffer = true -> after = before) /\
     (is_sentinel buffer = false ->
        (full (ssid_queue before) = false ->
           queue_contents (ssid_queue after) =
             queue_contents (ssid_queue before)
             ++ [(buffer, timestamp_of (clock_monotonic (clock_reads before)))]) /\
        (full (ssid_queue before) = true -> after = before))).
Proof.
  intros Hwf. split.
  - intros preceding ssid following Hwhole Hshort.
    apply (readSSID_each_buffer clock_monotonic m _ (file_lines preceding) (line ssid)
             (file_lines following) Hwf).
    rewrite (file_lines_app (String.length preceding)) by (lia || assumption).
    now rewrite file_lines_short.
  - intros stream pre buffer post. now apply readSSID_each_buffer.
Qed.

End ScannerLinesQueue.

(** C4 as stated fails for lines that do not fit the buffer of
    [readSSID]. The scanner returns 40 valid lines of 63 characters to the
    empty queue, which has 32 free slots. The scan enqueues 32 pairs, but
    they are not 32 of the lines: each line fills two buffers, one with
    its first 62 characters and one with the rest, and the pairs are the
    pieces of the first 16 lines. *)
Lemma readSSID_long_lines_fill_queue :
  let q' := ssid_queue (readSSID example_clock (Some (join_lines (map line long_burst)))
                          started) in
  Forall (fun ssid => newline_free ssid = true /\ is_sentinel (line ssid) = false)
         long_burst /\
  queue_contents (ssid_queue started) = [] /\
  (queue_free (ssid_queue started) < length long_burst)%nat /\
  length (queue_contents q') = Z.to_nat BUFFER_SIZE /\
  map fst (queue_contents q') = concat (replicate 16 [long_name; line "A"]) /\
  map fst (queue_contents q')
    <> take (queue_free (ssid_queue started)) (map line long_burst).
Proof.
  cbn zeta. split; [|split; [|split; [|split; [|split]]]].
  - repeat constructor.
  - reflexivity.
  - vm_compute. lia.
  - vm_compute. reflexivity.
  - vm_compute. reflexivity.
  - vm_compute. discriminate.
Qed.

Lemma queue_capacity_witness :
  let q' := ssid_queue (readSSID example_clock (Some burst_output) started) in
  length (queue_contents q') = Z.to_nat BUFFER_SIZE /\ full q' = true.
Proof.
  destruct (queue_capacity example_clock started started_queue_wf)
    as (_ & _ & Hlines & _).
  destruct (Hlines (replicate 40 "AP"%string)) as [_ Hburst].
  - repeat constructor.
  - apply Hburst. vm_compute. lia.
Defined.

(** C8 as stated fails for a line that does not fit the buffer of
    [readSSID]. The scanner returns one line of 63 characters that starts
    with the sentinel. Its first 62 characters fill a buffer that is
    skipped; its last character and the newline fill the next buffer,
    which does not start with the sentinel and is enqueued. *)
Lemma readSSID_long_sentinel_line :
  let m' := readSSID example_clock (Some (line long_sentinel)) started in
  newline_free long_sentinel = true /\
  is_sentinel (line long_sentinel) = true /\
  queue_contents (ssid_queue started) = [] /\
  queue_contents (ssid_queue m') = [(line "A", timestamp_of (example_clock 0))] /\
  m' <> started.
Proof.
  cbn zeta. repeat split; try reflexivity.
  vm_compute. discriminate.
Qed.

Lemma readSSID_each_line_witness :
  let before := fold_left (readSSID_line example_clock) (file_lines (line "NetA")) started in
  readSSID_line example_clock before (line "x00") = before.
Proof.
  destruct (readSSID_each_line example_clock started started_queue_wf) as [Hline _].
  destruct (Hline (line "NetA") "x00"%string (line "NetA")) as (_ & Hskip & _).
  - right. now exists "NetA"%string.
  - repeat split; cbn; lia.
  - apply Hskip. reflexivity.
Defined.

(** ** What a scan leaves alone *)

Section ScanFrame.

Variable clock_monotonic : nat -> timespec.

Lemma readSSID_lines_history lines : forall m,
  let m' := fold_left (readSSID_line clock_monotonic) lines m in
  ssid_num m' = ssid_num m /\ ssids m' = ssids m /\
  num_timestamps m' = num_timestamps m /\
  timestamps m' = timestamps m /\ latencies m' = latencies m.
Proof.
  induction lines as [|ssid lines IH]; intros m; [now repeat split|].
  cbn [fold_left].
  destruct (IH (readSSID_line clock_monotonic m ssid)) as (-> & -> & -> & -> & ->).
  unfold readSSID_line. destruct (_ && _); now repeat split.
Qed.

(** X12: a scan reads the clock once for each pair it enqueues and never
    otherwise, and it does not touch the history. *)
Theorem readSSID_reads_clock_per_pair popen_result m :
  queue_wf (ssid_queue m) ->
  let m' := readSSID clock_monotonic popen_result m in
  clock_reads m' =
    (clock_reads m
     + (length (queue_contents (ssid_queue m')) - length (queue_contents (ssid_queue m))))%nat /\
  (ssid_num m' = ssid_num m /\ ssids m' = ssids m /\
   num_timestamps m' = num_timestamps m /\
   timestamps m' = timestamps m /\ latencies m' = latencies m).
Proof.
  intros Hwf. destruct popen_result as [stream|]; cbn [readSSID].
  - split; [|apply readSSID_lines_history].
    destruct (readSSID_lines_contents clock_monotonic (file_lines stream) m Hwf)
      as (_ & Hc & Hk).
    rewrite Hk, Hc, length_app. unfold stamped. rewrite length_imap. lia.
  - split; [lia | now repeat split].
Qed.

(** X13: once the queue is full in the middle of a scan, the rest of the
    scan changes nothing at all: the lines left are read and dropped
    without reading the clock. *)
Theorem readSSID_after_full m stream pre post :
  file_lines stream = pre ++ post ->
  full (ssid_queue (fold_left (readSSID_line clock_monotonic) pre m)) = true ->
  readSSID clock_monotonic (Some stream) m
    = fold_left (readSSID_line clock_monotonic) pre m.
Proof.
  intros Hlines Hfull. cbn [readSSID]. rewrite Hlines, fold_left_app. clear Hlines.
  generalize dependent (fold_left (readSSID_line clock_monotonic) pre m).
  intros m1 Hfull. induction post as [|ssid post IH]; [reflexivity|].
  cbn [fold_left]. rewrite readSSID_line_skip by (now right). exact IH.
Qed.

End ScanFrame.

Lemma readSSID_reads_clock_per_pair_witness :
  clock_reads scanned = 2%nat /\ ssids scanned = [].
Proof.
  destruct (readSSID_reads_clock_per_pair example_clock (Some scan_output) started
              started_queue_wf) as (Hk & _ & Hs & _).
  split; [exact Hk | exact Hs].
Defined.

Lemma readSSID_after_full_witness :
  readSSID example_clock (Some burst_output) started
    = fold_left (readSSID_line example_clock) (replicate 32 (line "AP")) started.
Proof.
  apply (readSSID_after_full example_clock started burst_output
           (replicate 32 (line "AP")) (replicate 8 (line "AP")));
    vm_compute; reflexivity.
Defined.

(** ** The history grows by appending *)

Section HistoryGrowth.

Variable clock_monotonic : nat -> timespec.

Lemma concat_insert_snoc {A : Type} `{Inhabited A} (ls : list (list A)) (k : nat) (x : A) :
  (k < length ls)%nat ->
  length (concat (<[k := ls !!! k ++ [x]]> ls)) = S (length (concat ls)).
Proof.
  revert k. induction ls as [|l ls IH]; intros k Hk; cbn [length] in Hk; [lia|].
  destruct k as [|k]; cbn [concat].
  - cbn. rewrite !length_app. cbn. lia.
  - change (<[S k := (l :: ls) !!! S k ++ [x]]> (l :: ls))
      with (l :: <[k := ls !!! k ++ [x]]> ls).
    cbn [concat]. rewrite !length_app, IH by lia. lia.
Qed.

(** X14: an aggregation never removes or rewrites what the history holds:
    the number of entries does not decrease, and every entry keeps its
    SSID, its timestamps and its latencies as a prefix of what it holds
    afterwards. *)
Theorem storeSSIDs_append_only m :
  history_wf m -> history_room m ->
  let m' := storeSSIDs clock_monotonic m in
  ssid_num m <= ssid_num m' /\
  forall k : nat, (k < Z.to_nat (ssid_num m))%nat ->
    ssids m' !!! k = ssids m !!! k /\
    timestamps m !!! k `prefix_of` timestamps m' !!! k /\
    latencies m !!! k `prefix_of` latencies m' !!! k.
Proof.
  intros Hwf Hroom. cbn zeta.
  pose proof (storeSSIDs_aggregated clock_monotonic m Hwf Hroom) as Hagg.
  destruct (queuePop (ssid_queue m)).1 as [ssid timestamp].
  destruct Hagg as (Hagg & _ & _).
  destruct Hwf as [Hn Hss Hns Hts Hls _].
  destruct Hagg as [k0 Hk0 _ _ En Es Ens Ets Els | _ En Es Ens Ets Els];
    rewrite En, Es, Ets, Els; (split; [lia|]); intros k Hk.
  - destruct (decide (k = k0)) as [-> | Hne].
    + rewrite !list_lookup_total_insert_eq by lia.
      repeat split; apply prefix_app_r; reflexivity.
    + rewrite !list_lookup_total_insert_ne by congruence. repeat split; reflexivity.
  - rewrite !lookup_total_app_l by lia. repeat split; reflexivity.
Qed.

(** X15: an aggregation moves exactly one sample from the queue to the
    history: one pair fewer waits, one timestamp more is recorded, so that
    no sample is lost or counted twice between the two. *)
Theorem storeSSIDs_conserves_samples m :
  history_wf m -> history_room m ->
  queue_wf (ssid_queue m) -> empty (ssid_queue m) = false ->
  let m' := storeSSIDs clock_monotonic m in
  recorded_samples m' = S (recorded_samples m) /\
  length (queue_contents (ssid_queue m)) = S (length (queue_contents (ssid_queue m'))) /\
  (recorded_samples m' + length (queue_contents (ssid_queue m')) =
   recorded_samples m + length (queue_contents (ssid_queue m)))%nat.
Proof.
  intros Hwf Hroom Hq Hne. cbn zeta.
  pose proof (storeSSIDs_aggregated clock_monotonic m Hwf Hroom) as Hagg.
  pose proof (queuePop_contents _ Hq Hne) as Hpop.
  destruct (queuePop (ssid_queue m)).1 as [ssid timestamp].
  destruct Hagg as (Hagg & Hqueue & _).
  assert (Hrec : recorded_samples (storeSSIDs clock_monotonic m) = S (recorded_samples m)).
  { unfold recorded_samples. destruct Hwf as [Hn Hss Hns Hts Hls _].
    destruct Hagg as [k0 Hk0 _ _ _ _ _ Ets _ | _ _ _ _ Ets _]; rewrite Ets.
    - apply concat_insert_snoc. lia.
    - rewrite concat_app, length_app. cbn. lia. }
  assert (Hlen : length (queue_contents (ssid_queue m))
                 = S (length (queue_contents (ssid_queue (storeSSIDs clock_monotonic m))))).
  { rewrite Hqueue, Hpop. reflexivity. }
  repeat split; [exact Hrec | exact Hlen | lia].
Qed.

(** X16: after an aggregation the pair that was dequeued is the last
    sample of an entry of its SSID: the entry ends with the timestamp of
    the pair and with the latency computed for it. *)
Theorem storeSSIDs_records_pair m :
  history_wf m -> history_room m ->
  let '(ssid, timestamp) := (queuePop (ssid_queue m)).1 in
  let m' := storeSSIDs clock_monotonic m in
  exists k : nat, (k < Z.to_nat (ssid_num m'))%nat /\
    ssids m' !!! k = ssid /\
    last (timestamps m' !!! k) = Some timestamp /\
    last (latencies m' !!! k)
      = Some (F32.sub (aggregation_time clock_monotonic m) timestamp).
Proof.
  intros Hwf Hroom.
  pose proof (storeSSIDs_aggregated clock_monotonic m Hwf Hroom) as Hagg.
  destruct (queuePop (ssid_queue m)).1 as [ssid timestamp].
  destruct Hagg as (Hagg & _ & _). cbn zeta.
  destruct Hwf as [Hn Hss Hns Hts Hls _].
  destruct Hagg as [k Hk Hm _ En Es Ens Ets Els | _ En Es Ens Ets Els];
    rewrite En, Es, Ets, Els.
  - exists k. unfold entry_matches in Hm. apply andb_true_iff in Hm as [Hs _].
    apply String.eqb_eq in Hs.
    rewrite !list_lookup_total_insert_eq by lia. rewrite !last_snoc.
    repeat split; [lia | exact Hs].
  - exists (Z.to_nat (ssid_num m)).
    rewrite !lookup_total_app_r by lia.
    rewrite Hss, Hts, Hls, Nat.sub_diag. cbn. repeat split. lia.
Qed.

(** X17: the entries are in the order in which the SSIDs were first seen.
    A pair whose SSID is in no entry adds an entry of that SSID behind the
    others; a pair whose SSID is in an entry that ends with another
    timestamp adds no entry. *)
Theorem storeSSIDs_first_seen_order m :
  history_wf m -> history_room m ->
  let '(ssid, timestamp) := (queuePop (ssid_queue m)).1 in
  let m' := storeSSIDs clock_monotonic m in
  ((forall k : nat, (k < Z.to_nat (ssid_num m))%nat -> ssids m !!! k <> ssid) ->
   ssid_num m' = ssid_num m + 1 /\ ssids m' = ssids m ++ [ssid] /\
   timestamps m' = timestamps m ++ [[timestamp]]) /\
  (forall k : nat, (k < Z.to_nat (ssid_num m))%nat -> ssids m !!! k = ssid ->
     F32.neb ((timestamps m !!! k) !!! Z.to_nat (to_u32 (num_timestamps m !!! k - 1)))
             timestamp = true ->
     ssid_num m' = ssid_num m /\ ssids m' = ssids m).
Proof.
  intros Hwf Hroom.
  pose proof (storeSSIDs_aggregated clock_monotonic m Hwf Hroom) as Hagg.
  destruct (queuePop (ssid_queue m)).1 as [ssid timestamp].
  destruct Hagg as (Hagg & _ & _). cbn zeta.
  destruct Hagg as [k0 Hk0 Hm _ En Es Ens Ets Els | Hnone En Es Ens Ets Els].
  - split; [|now intros].
    intros Hnew. exfalso. apply (Hnew k0 Hk0).
    unfold entry_matches in Hm. apply andb_true_iff in Hm as [Hs _].
    now apply String.eqb_eq in Hs.
  - split; [now intros|].
    intros k Hk Hs Hne. exfalso. specialize (Hnone k Hk).
    unfold entry_matches in Hnone. rewrite Hne, andb_true_r in Hnone.
    unfold strcmp_eq in Hnone. rewrite Hs, String.eqb_refl in Hnone. discriminate.
Qed.

End HistoryGrowth.

(** ** The report *)

Section Report.

Variable clock_monotonic : nat -> timespec.

Lemma drop_zip_lookup (ts ls : list f32_t) (j : nat) :
  length ts = length ls -> (j < length ts)%nat ->
  drop j (zip ts ls) = (ts !!! j, ls !!! j) :: drop (S j) (zip ts ls).
Proof.
  intros Hlen Hj. apply drop_S. rewrite lookup_zip_with.
  rewrite (list_lookup_lookup_total_lt ts j) by lia.
  rewrite (list_lookup_lookup_total_lt ls j) by lia. reflexivity.
Qed.

Lemma writeToFile_rows_spec (k : nat) m (fuel : nat) : forall j : nat,
  length (timestamps m !!! k) = Z.to_nat (num_timestamps m !!! k) ->
  length (latencies m !!! k) = Z.to_nat (num_timestamps m !!! k) ->
  num_timestamps m !!! k < 2 ^ 32 ->
  (j + fuel = Z.to_nat (num_timestamps m !!! k))%nat ->
  writeToFile_rows fuel (Z.of_nat k) (Z.of_nat j) m
    = concat (map report_row (drop j (zip (timestamps m !!! k) (latencies m !!! k)))).
Proof.
  induction fuel as [|fuel IH]; intros j Hts Hls Hmax Hj; cbn [writeToFile_rows].
  - rewrite drop_ge; [reflexivity|]. rewrite length_zip_with. lia.
  - rewrite Nat2Z.id.
    destruct (Z.of_nat j <? num_timestamps m !!! k) eqn:E;
      [apply Z.ltb_lt in E | apply Z.ltb_ge in E; lia].
    rewrite (drop_zip_lookup _ _ j) by lia.
    cbn [map concat report_row fst snd app]. rewrite Nat2Z.id.
    assert (E1 : to_u64 (Z.of_nat j + 1) = Z.of_nat (S j)).
    { unfold to_u64, to_unsigned. rewrite Z.mod_small; lia. }
    rewrite E1, IH by (assumption || lia). reflexivity.
Qed.

Lemma writeToFile_entries_spec m (fuel : nat) : forall i : nat,
  history_wf m -> history_bounded m ->
  (i + fuel = Z.to_nat (ssid_num m))%nat ->
  writeToFile_entries fuel (Z.of_nat i) m
    = concat (map (fun k => report_entry (ssids m !!! k)
                              (zip (timestamps m !!! k) (latencies m !!! k)))
                  (seq i fuel)).
Proof.
  induction fuel as [|fuel IH]; intros i Hwf Hb Hi; cbn [writeToFile_entries];
    [reflexivity|].
  pose proof (hwf_ssid_num m Hwf) as Hn. pose proof Hb as [Hmax Hbk].
  destruct (Z.of_nat i <? ssid_num m) eqn:E;
    [apply Z.ltb_lt in E | apply Z.ltb_ge in E; lia].
  rewrite Nat2Z.id.
  destruct (hwf_entry m Hwf i ltac:(lia)) as (Hone & Hts & Hls).
  rewrite (writeToFile_rows_spec i m _ O) by (auto with lia).
  assert (E1 : to_u64 (Z.of_nat i + 1) = Z.of_nat (S i)).
  { unfold to_u64, to_unsigned. rewrite Z.mod_small; lia. }
  rewrite E1, (IH (S i) Hwf Hb) by lia.
  cbn [seq map concat drop]. unfold report_entry.
  cbn [app]. now rewrite <- app_assoc.
Qed.

Lemma writeToFile_calls m :
  history_wf m -> history_bounded m ->
  writeToFile true m =
    Some ([Fprintf FORMAT_TITLE; Fprintf FORMAT_COLUMNS; Fprintf FORMAT_RULE]
          ++ concat (map (fun k => report_entry (ssids m !!! k)
                                     (zip (timestamps m !!! k) (latencies m !!! k)))
                         (seq 0 (Z.to_nat (ssid_num m))))).
Proof.
  intros Hwf Hb. unfold writeToFile. change 0 with (Z.of_nat 0).
  now rewrite (writeToFile_entries_spec m _ O Hwf Hb).
Qed.

(** X18: when the report file can be opened, the report is its three
    header lines followed, for each entry of the history in order, by the
    SSID, one row for each timestamp paired with its latency, in the order
    recorded, and an empty line: every recorded sample is written once and
    nothing else is. When the file cannot be opened nothing is written. *)
Theorem writeToFile_lists_history m :
  history_wf m -> history_bounded m ->
  writeToFile true m =
    Some ([Fprintf FORMAT_TITLE; Fprintf FORMAT_COLUMNS; Fprintf FORMAT_RULE]
          ++ concat (map (fun k => report_entry (ssids m !!! k)
                                     (zip (timestamps m !!! k) (latencies m !!! k)))
                         (seq 0 (Z.to_nat (ssid_num m))))) /\
  writeToFile false m = None.
Proof.
  intros Hwf Hb. split; [now apply writeToFile_calls | reflexivity].
Qed.

Lemma history_room_bounded_after ssid timestamp latency m m' :
  history_wf m -> history_room m -> aggregated ssid timestamp latency m m' ->
  history_bounded m'.
Proof.
  intros [Hn Hss Hns Hts Hls _] [Hmax Hroom]
    [k0 Hk0 _ _ En Es Ens Ets Els | _ En Es Ens Ets Els];
    split; rewrite ?En, ?Ens; try lia; intros k Hk.
  - destruct (decide (k = k0)) as [-> | Hne].
    + rewrite list_lookup_total_insert_eq by lia. specialize (Hroom k0 Hk0). lia.
    + rewrite list_lookup_total_insert_ne by congruence. specialize (Hroom k Hk). lia.
  - destruct (decide (k < Z.to_nat (ssid_num m))%nat) as [Hlt | Hge].
    + rewrite lookup_total_app_l by lia. specialize (Hroom k Hlt). lia.
    + rewrite lookup_total_app_r by lia.
      replace (k - length (num_timestamps m))%nat with O by lia. cbn. lia.
Qed.

(** X19: in an iteration of the store task that can open the report file,
    the report written contains the row of the pair just dequeued, its
    timestamp and the latency computed for it, as the last row of the
    section of an SSID. *)
Theorem STORE_TASK_reports_new_sample m :
  history_wf m -> history_room m -> empty (ssid_queue m) = false ->
  let '(ssid, timestamp) := (queuePop (ssid_queue m)).1 in
  exists m' calls before after,
    STORE_TASK_iteration clock_monotonic true m = Some (m', Some calls) /\
    m' = storeSSIDs clock_monotonic m /\
    calls = before
            ++ report_row (timestamp, F32.sub (aggregation_time clock_monotonic m) timestamp)
            ++ Fprintf end_of_line :: after.
Proof.
  intros Hwf Hroom Hne.
  pose proof (storeSSIDs_aggregated clock_monotonic m Hwf Hroom) as Hagg.
  destruct (queuePop (ssid_queue m)).1 as [ssid timestamp].
  destruct Hagg as (Hagg & _ & _).
  set (m' := storeSSIDs clock_monotonic m) in *.
  set (lat := F32.sub (aggregation_time clock_monotonic m) timestamp) in *.
  pose proof (aggregated_wf _ _ _ _ _ Hwf Hagg) as Hwf'.
  pose proof (history_room_bounded_after _ _ _ _ _ Hwf Hroom Hagg) as Hb'.
  pose proof (writeToFile_calls m' Hwf' Hb') as Hw.
  assert (Hk : exists k rows, (k < Z.to_nat (ssid_num m'))%nat /\
             zip (timestamps m' !!! k) (latencies m' !!! k) = rows ++ [(timestamp, lat)]).
  { destruct Hwf as [Hn Hss Hns Hts Hls Hentry].
    destruct Hagg as [k Hk _ _ En Es Ens Ets Els | _ En Es Ens Ets Els];
      rewrite En, Ets, Els.
    - exists k, (zip (timestamps m !!! k) (latencies m !!! k)).
      split; [lia|]. rewrite !list_lookup_total_insert_eq by lia.
      destruct (Hentry k Hk) as (_ & H1 & H2).
      rewrite zip_with_app by lia. reflexivity.
    - exists (Z.to_nat (ssid_num m)), []. split; [lia|].
      rewrite !lookup_total_app_r by lia.
      rewrite Hts, Hls, Nat.sub_diag. reflexivity. }
  destruct Hk as (k & rows & Hk & Hzip).
  assert (Hseq : seq 0 (Z.to_nat (ssid_num m'))
                 = seq 0 k ++ k :: seq (S k) (Z.to_nat (ssid_num m') - S k)).
  { replace (Z.to_nat (ssid_num m')) with (k + S (Z.to_nat (ssid_num m') - S k))%nat
      at 1 by lia.
    rewrite seq_app. reflexivity. }
  set (entry := fun k => report_entry (ssids m' !!! k)
                          (zip (timestamps m' !!! k) (latencies m' !!! k))) in *.
  exists m', ([Fprintf FORMAT_TITLE; Fprintf FORMAT_COLUMNS; Fprintf FORMAT_RULE]
              ++ concat (map entry (seq 0 (Z.to_nat (ssid_num m'))))),
    ([Fprintf FORMAT_TITLE; Fprintf FORMAT_COLUMNS; Fprintf FORMAT_RULE]
     ++ concat (map entry (seq 0 k))
     ++ FprintfS FORMAT_SSID (ssids m' !!! k) :: concat (map report_row rows)),
    (concat (map entry (seq (S k) (Z.to_nat (ssid_num m') - S k)))).
  split; [|split; [reflexivity|]].
  - unfold STORE_TASK_iteration, STORE_TASK_critical. rewrite Hne. fold m'.
    rewrite Hw. reflexivity.
  - rewrite Hseq at 1. rewrite map_app, concat_app. cbn [map concat].
    unfold entry at 2. rewrite Hzip. unfold report_entry.
    rewrite map_app, concat_app. cbn [map concat]. rewrite app_nil_r.
    repeat rewrite <- app_assoc. cbn [app]. repeat rewrite <- app_assoc.
    reflexivity.
Qed.

End Report.

(** ** How [main] ends *)

Section MainOutcome.

(** X20: with an argument count of 2 and a real-time setup that succeeds,
    [main] creates the read task and then the store task, after the queue
    has been initialised; they start on a well-formed, empty queue and an
    empty history, with a cycle time that fits [u64_t]; the store task
    starts suspended and the read task can scan at once. *)
Theorem main_starts_tasks env :
  mlockall_result env <> -1 -> sched_setaffinity_result env <> -1 -> argc env = 2 ->
  exists m,
    main env = ([EvMlockall; EvPrefaultStack; EvSchedSetaffinity; EvQueueInit;
                 EvPthreadCreate "READ_TASK"; EvPthreadCreate "STORE_TASK"],
                Returned m) /\
    queue_wf (ssid_queue m) /\ queue_contents (ssid_queue m) = [] /\
    history_wf m /\ ssid_num m = 0 /\
    0 <= read_cycle_time m < 2 ^ 64 /\
    (forall clock_monotonic,
       STORE_TASK_critical clock_monotonic m = None /\
       forall popen_result,
         READ_TASK_critical clock_monotonic popen_result m
           = Some (readSSID clock_monotonic popen_result m)).
Proof.
  intros Hm Ha Hargc. unfold main, INIT_TASK.
  apply Z.eqb_neq in Hm, Ha. rewrite Hm, Ha, Hargc. cbn [Z.eqb Pos.eqb negb app].
  eexists. split; [reflexivity|].
  cbn [ssid_queue set_ssid_queue set_read_cycle_time read_cycle_time ssid_num].
  destruct (init_queue_wf initial_queue eq_refl eq_refl) as [Hwf Hnil].
  split; [exact Hwf|]. split; [exact Hnil|]. split.
  { split; cbn; try lia. }
  split; [reflexivity|]. split.
  { apply Z.mod_pos_bound. reflexivity. }
  intros clock_monotonic. split; reflexivity.
Qed.

Lemma main_starts_tasks_witness :
  exists m,
    main {| mlockall_result := 0; sched_setaffinity_result := 0;
            argc := 2; argv := ["scanner"; "2"]%string |}
      = ([EvMlockall; EvPrefaultStack; EvSchedSetaffinity; EvQueueInit;
          EvPthreadCreate "READ_TASK"; EvPthreadCreate "STORE_TASK"], Returned m) /\
    queue_wf (ssid_queue m).
Proof.
  destruct (main_starts_tasks
              {| mlockall_result := 0; sched_setaffinity_result := 0;
                 argc := 2; argv := ["scanner"; "2"]%string |})
    as (m & Hmain & Hwf & _); cbn [mlockall_result sched_setaffinity_result argc];
    try lia.
  exists m. split; assumption.
Defined.

(** X21: [main] followed to its end. When it exits, the call of [exit]
    is the last thing it does, and either the status is one of the three
    fatal codes and no task has been created, or the status is 0, the two
    tasks have been created, both calls of [pthread_join] have returned
    and [EXIT_TASK] has been called. While a call of [pthread_join] does
    not return, [main] does not exit. *)
Theorem main_exit_status env join_1 join_2 :
  (forall status,
     (main_to_exit env join_1 join_2).2 = Exited status ->
     last (main_to_exit env join_1 join_2).1 = Some (EvExit status) /\
     (((status = EXIT_MLOCKALL \/ status = EXIT_AFFINITY \/ status = EXIT_ARGUMENTS) /\
       Forall (fun e => forall task, e <> EvPthreadCreate task)
              (main_to_exit env join_1 join_2).1) \/
      (status = 0 /\ join_1 = true /\ join_2 = true /\
       exists evs m,
         main env = (evs ++ [EvPthreadCreate "READ_TASK"; EvPthreadCreate "STORE_TASK"],
                     Returned m) /\
         (main_to_exit env join_1 join_2).1 =
           evs ++ [EvPthreadCreate "READ_TASK"; EvPthreadCreate "STORE_TASK";
                   EvPthreadJoin "READ_TASK"; EvPthreadJoin "STORE_TASK";
                   EvExitTask; EvExit 0]))) /\
  (forall m, (main env).2 = Returned m -> join_1 && join_2 = false ->
     (main_to_exit env join_1 join_2).2 = Returned m).
Proof.
  unfold main_to_exit, main, INIT_TASK.
  destruct (mlockall_result env =? -1).
  { cbn [fst snd]. split; [|discriminate]. intros status H. injection H as <-.
    split; [reflexivity|]. left. split; [now left|].
    repeat constructor; discriminate. }
  destruct (sched_setaffinity_result env =? -1).
  { cbn [fst snd]. split; [|discriminate]. intros status H. injection H as <-.
    split; [reflexivity|]. left. split; [now right; left|].
    repeat constructor; discriminate. }
  destruct (argc env =? 2); cbn [negb fst snd].
  - split.
    + intros status H. destruct join_1, join_2; cbn [fst snd] in *; try discriminate.
      injection H as <-. split; [reflexivity|]. right.
      repeat split.
      eexists [EvMlockall; EvPrefaultStack; EvSchedSetaffinity; EvQueueInit], _.
      split; reflexivity.
    + intros m H Hj. destruct join_1, join_2; cbn [fst snd] in *;
        try discriminate; exact H.
  - split; [|discriminate]. intros status H. injection H as <-.
    split; [reflexivity|]. left. split; [now right; right|].
    repeat constructor; discriminate.
Qed.

Lemma main_exit_status_witness :
  let env := {| mlockall_result := 0; sched_setaffinity_result := -1;
                argc := 2; argv := ["scanner"; "2"]%string |} in
  last (main_to_exit env true true).1 = Some (EvExit EXIT_AFFINITY).
Proof.
  intros env.
  exact (proj1 (proj1 (main_exit_status env true true) EXIT_AFFINITY eq_refl)).
Defined.

End MainOutcome.

(** ** The further properties on the worked run *)

Section WorkedRunFurther.

Lemma scanned_queue_wf : queue_wf (ssid_queue scanned).
Proof.
  apply (readSSID_lines_contents example_clock (file_lines scan_output) started).
  exact started_queue_wf.
Qed.

Lemma scanned_fields :
  ssid_num scanned = 0 /\ ssids scanned = [] /\ num_timestamps scanned = [] /\
  timestamps scanned = [] /\ latencies scanned = [].
Proof. vm_compute. repeat split; reflexivity. Qed.

Lemma scanned_history : history_wf scanned /\ history_room scanned.
Proof.
  destruct scanned_fields as (E1 & E2 & E3 & E4 & E5).
  split; [split | split]; rewrite ?E1, ?E2, ?E3, ?E4, ?E5;
    try reflexivity; try lia.
Qed.

Lemma stored_once_queue_wf : queue_wf (ssid_queue stored_once).
Proof.
  unfold stored_once. rewrite storeSSIDs_queue.
  apply queuePop_wf; [exact scanned_queue_wf | reflexivity].
Qed.

Lemma stored_once_bounded : history_bounded stored_once.
Proof.
  destruct stored_once_history as [_ [Hmax Hroom]].
  split; [lia|]. intros k Hk. specialize (Hroom k Hk). lia.
Qed.

Lemma updateInterval_compose_witness :
  let t := {| tv_sec := 100; tv_nsec := 999999999 |} in
  updateInterval (updateInterval t 2000000000) 2000000000 = updateInterval t 4000000000.
Proof.
  apply (updateInterval_compose {| tv_sec := 100; tv_nsec := 999999999 |}
           2000000000 2000000000); cbn [tv_sec tv_nsec];
    unfold NSEC_PER_SEC, LONG_MIN, LONG_MAX; try lia.
  apply Z.leb_le. reflexivity.
Defined.

Lemma read_task_deadline_does_not_drift_witness :
  let actions := [NextShot; Scan (Some scan_output); Store; NextShot; Store] in
  exists m',
    run_tasks example_clock actions started = Some m' /\
    total_nsec (read_task_timer m') = 4000000000.
Proof.
  intros actions.
  destruct (run_tasks example_clock actions started) as [m'|] eqn:Hrun.
  - exists m'. split; [reflexivity|].
    destruct (read_task_deadline_does_not_drift example_clock actions started m' Hrun)
      as [Ht _].
    + split; [apply Z.leb_le | apply Z.ltb_lt]; reflexivity.
    + apply Z.leb_le. reflexivity.
    + apply Z.leb_le. reflexivity.
    + apply Z.leb_le. reflexivity.
    + apply Z.leb_le. reflexivity.
    + exact Ht.
  - vm_compute in Hrun. discriminate Hrun.
Defined.

Lemma file_lines_long_line_witness :
  file_lines (String.append long_name (String.append "B" end_of_line))
    = long_name :: file_lines (String.append "B" end_of_line).
Proof. apply file_lines_long_line; reflexivity. Defined.

Lemma storeSSIDs_append_only_witness :
  ssid_num stored_once <= ssid_num stored_twice /\
  timestamps stored_once !!! 0%nat `prefix_of` timestamps stored_twice !!! 0%nat.
Proof.
  destruct (storeSSIDs_append_only example_clock stored_once
              (proj1 stored_once_history) (proj2 stored_once_history)) as [Hn Hk].
  split; [exact Hn|].
  destruct (Hk 0%nat) as (_ & Hts & _); [|exact Hts].
  destruct stored_once_fields as (-> & _). cbn. lia.
Defined.

Lemma storeSSIDs_conserves_samples_witness :
  recorded_samples stored_twice = S (recorded_samples stored_once).
Proof.
  exact (proj1 (storeSSIDs_conserves_samples example_clock stored_once
                  (proj1 stored_once_history) (proj2 stored_once_history)
                  stored_once_queue_wf eq_refl)).
Defined.

Lemma storeSSIDs_records_pair_witness :
  exists k : nat, (k < Z.to_nat (ssid_num stored_twice))%nat /\
    ssids stored_twice !!! k = line "NetA" /\
    last (timestamps stored_twice !!! k) = Some (F32.of_Z 1000).
Proof.
  pose proof (storeSSIDs_records_pair example_clock stored_once
                (proj1 stored_once_history) (proj2 stored_once_history)) as H.
  change (queuePop (ssid_queue stored_once)).1
    with (line "NetA", F32.of_Z 1000) in H.
  cbv beta iota zeta in H. destruct H as (k & Hk & Hs & Ht & _).
  exists k. repeat split; assumption.
Defined.

Lemma storeSSIDs_first_seen_order_witness :
  ssid_num stored_once = ssid_num scanned + 1 /\
  ssids stored_once = ssids scanned ++ [line "NetA"].
Proof.
  destruct scanned_history as [Hwf Hroom].
  pose proof (storeSSIDs_first_seen_order example_clock scanned Hwf Hroom) as H.
  change (queuePop (ssid_queue scanned)).1 with (line "NetA", F32.of_Z 1000) in H.
  cbv beta iota zeta in H. destruct H as [Hnew _].
  destruct Hnew as (Hn & Hs & _); [|exact (conj Hn Hs)].
  intros k Hk. destruct scanned_fields as (E & _). rewrite E in Hk. cbn in Hk. lia.
Defined.

Lemma writeToFile_lists_history_witness :
  writeToFile true stored_once =
    Some ([Fprintf FORMAT_TITLE; Fprintf FORMAT_COLUMNS; Fprintf FORMAT_RULE]
          ++ report_entry (line "NetA") [(F32.of_Z 1000, F32.zero)]).
Proof.
  destruct (writeToFile_lists_history stored_once
              (proj1 stored_once_history) stored_once_bounded) as [H _].
  rewrite H. destruct stored_once_fields as (-> & -> & _ & -> & ->).
  reflexivity.
Defined.

Lemma STORE_TASK_reports_new_sample_witness :
  exists m' calls before after,
    STORE_TASK_iteration example_clock true stored_once = Some (m', Some calls) /\
    m' = stored_twice /\
    calls = before
            ++ report_row (F32.of_Z 1000,
                           F32.sub (aggregation_time example_clock stored_once)
                                   (F32.of_Z 1000))
            ++ Fprintf end_of_line :: after.
Proof.
  pose proof (STORE_TASK_reports_new_sample example_clock stored_once
                (proj1 stored_once_history) (proj2 stored_once_history) eq_refl) as H.
  change (queuePop (ssid_queue stored_once)).1
    with (line "NetA", F32.of_Z 1000) in H.
  exact H.
Defined.

End WorkedRunFurther.

(** ** The sentinel *)

Section Sentinel.

(** X22: the scan skips a buffer exactly when it starts with the three
    characters x, 0, 0; a buffer that is empty or shorter than three
    characters is never skipped. *)
Theorem is_sentinel_prefix ssid :
  (is_sentinel ssid = true <-> exists rest, ssid = String.append "x00" rest) /\
  ((String.length ssid < 3)%nat -> is_sentinel ssid = false).
Proof.
  unfold is_sentinel. split; [split|].
  - destruct ssid as [|a [|b [|c rest]]]; cbn; intros H;
      rewrite ?andb_false_r in H; try discriminate H.
    apply andb_true_iff in H as [Ha H]. apply andb_true_iff in H as [Hb H].
    apply andb_true_iff in H as [Hc _].
    apply Ascii.eqb_eq in Ha, Hb, Hc. subst. now exists rest.
  - intros [rest ->]. cbn. now destruct rest.
  - destruct ssid as [|a [|b [|c rest]]]; cbn; intros H;
      rewrite ?andb_false_r; try reflexivity; lia.
Qed.

Lemma is_sentinel_prefix_witness : is_sentinel "x0" = false.
Proof. apply (proj2 (is_sentinel_prefix "x0")). cbn. lia. Defined.

End Sentinel.
